(** * Meeting recorder: chunk sequencing, summary policy and broadcast

    A shallow embedding of the Python sources [app/config.py],
    [app/storage.py], [app/transcriber.py], [app/summarizer.py],
    [app/workers.py] and [app/main.py].

    Conventions of the embedding.
    - Python [int] is [Z]; [len] of a string or list is injected with
      [Z.of_nat].
    - Python [str] is [string]; the text helpers [split], [strip] follow
      [str.split()] and [str.strip()] on the ASCII white space characters.
    - [datetime.now().timestamp()] is a float of seconds; it is read here as
      an exact rational [Q] from a clock that is part of the world.
    - The module level singletons [storage], [transcriber], [summarizer],
      [processor] and [ws_manager] are the fields of one [World] record that
      is threaded through every call.
    - Every coroutine is run to completion before the next one starts
      (one task at a time); interleavings at [await] points are outside the
      model.
    - [processor.websocket_manager] is the manager main.py installs when the
      module is loaded, so every [if self.websocket_manager] test passes.
    - The nesting of [process_chunk] and [_process_buffered_chunks] is as
      deep as the buffer requires; Python's recursion limit is not
      represented.
    - Writes below the directory of a session that [create_session] made are
      taken to succeed; the only file system failure represented is
      [save_chunk] writing below a directory that does not exist. *)

From Stdlib Require Import ZArith QArith String Ascii List Strings.Byte.
From stdpp Require Import base gmap strings list fin_maps.
From Stdlib Require DecimalString DecimalN.

Local Open Scope Z_scope.
Local Open Scope string_scope.
Local Open Scope list_scope.

(* ===================================================================== *)
(** ** Python text primitives *)
(* ===================================================================== *)

Module py.

(** [str.isspace] on one ASCII character: TAB..CR, FS..US and space. *)
Definition isspace (c : ascii) : bool :=
  let n := nat_of_ascii c in
  ((9 <=? n)%nat && (n <=? 13)%nat) || ((28 <=? n)%nat && (n <=? 32)%nat).

Definition emit (cur : list ascii) : list string :=
  match cur with
  | [] => []
  | _ => [string_of_list_ascii (rev cur)]
  end.

Fixpoint split_go (cur : list ascii) (s : string) : list string :=
  match s with
  | EmptyString => emit cur
  | String a s' =>
      if isspace a then emit cur ++ split_go [] s'
      else split_go (a :: cur) s'
  end.

(** [s.split()]: the maximal runs of characters that are not white space. *)
Definition split (s : string) : list string := split_go [] s.

Fixpoint lstrip (s : string) : string :=
  match s with
  | EmptyString => EmptyString
  | String a s' => if isspace a then lstrip s' else s
  end.

Definition rstrip (s : string) : string :=
  String.rev (lstrip (String.rev s)).

(** [s.strip()]. *)
Definition strip (s : string) : string := rstrip (lstrip s).

(** [len(s)]. *)
Definition len (s : string) : Z := Z.of_nat (String.length s).

(** Truth value of a string: non-empty. *)
Definition truthy (s : string) : bool :=
  match s with
  | EmptyString => false
  | String _ _ => true
  end.

(** [len(s.split())]. *)
Definition count_words (s : string) : Z := Z.of_nat (length (split s)).

End py.

(* ===================================================================== *)
(** ** app/config.py *)
(* ===================================================================== *)

Definition MAX_CHUNK_SIZE : Z := 10 * 1024 * 1024.
Definition SUPPORTED_FORMATS : list string :=
  [".webm"; ".ogg"; ".wav"; ".mp3"; ".m4a"].
Definition SUMMARY_WORD_THRESHOLD : Z := 200.
Definition SUMMARY_TIME_INTERVAL : Z := 30.

(* ===================================================================== *)
(** ** Data model *)
(* ===================================================================== *)

(** A chunk file on disk, [<session>/chunks/chunk_<seq><ext>], with the
    bytes [save_chunk] wrote there.  The buffer keeps [str(chunk_path)] and
    [get_buffered_chunk] rebuilds the [Path]; both name this file. *)
Record Chunk := mkChunk {
  chunk_session : string;
  chunk_seq : Z;
  chunk_ext : string;
  chunk_bytes : list byte
}.

Inductive Status := active | ended.

(** The dictionary stored in [SessionStorage.sessions] for one session.
    The ISO strings [created_at] and [ended_at] are kept as clock readings;
    [ended_at] is absent until [mark_session_ended]. *)
Record Session := mkSession {
  id : string;
  created_at : Q;
  status : Status;
  chunks_received : Z;
  transcript : string;
  summary : string;
  expected_seq : Z;
  buffered_chunks : gmap Z Chunk;
  last_summary_time : Q;
  word_count : Z;
  ended_at : option Q
}.

(** The messages [json.dumps] serialises for the WebSocket clients. *)
Inductive Message :=
| transcript_update (session_id text full_transcript : string)
| summary_msg (session_id summary : string)
| session_ended (session_id transcript summary : string).

(** A WebSocket connection object, compared by identity. *)
Definition Conn := nat.

(** The external collaborators: the ffmpeg subprocess, the Vosk recogniser,
    the LexRank summariser and the network side of a WebSocket. *)
Class Collaborators := {
(** a converted 16 kHz mono WAV file *)
Wav : Type;
(** the state of one [KaldiRecognizer] *)
Recognizer : Type;
(** [ffmpeg sid seq input]: the converted file when the subprocess exits
    with 0 and the output exists, [None] on any failure or exception *)
ffmpeg : string -> Z -> Chunk -> option Wav;
(** [KaldiRecognizer(model, rate)] *)
KaldiRecognizer : Recognizer;
(** the body of [transcribe_chunk] after [get_recognizer]: feed the file,
    take [FinalResult()], strip the text; the empty text stands for every
    path that returns [None] (bad format, exception, no speech) *)
recognize : Recognizer -> Wav -> Recognizer * string;
(** [json.loads(recognizer.FinalResult()).get("text", "").strip()] *)
FinalResult : Recognizer -> string;
(** [summarize] past its length guard, the fallback included *)
lexrank : string -> string;
(** [connection.send_text]: [false] when it raises *)
send_text : Conn -> Message -> bool
}.

Section Model.
Context `{Collaborators}.

(** The process state together with the environment it reads. *)
Record World := mkWorld {
  (** [storage.sessions] *)
  sessions : gmap string Session;
  (** the session directories that exist below [SESSIONS_DIR] *)
  session_dirs : gset string;
  (** [transcriber.recognizers] *)
  recognizers : gmap string Recognizer;
  (** [ws_manager.active_connections] *)
  active_connections : list Conn;
  (** trace: every message a connection accepted, oldest first *)
  delivered : list (Conn * Message);
  (** trace: every text passed to [summarizer.summarize], oldest first *)
  summarize_calls : list string;
  (** the wall clock: the reading of the n-th call of [datetime.now()] *)
  clock : nat -> Q;
  ticks : nat
}.

Definition with_sessions (w : World) (m : gmap string Session) : World :=
  mkWorld m (session_dirs w) (recognizers w) (active_connections w)
          (delivered w) (summarize_calls w) (clock w) (ticks w).

Definition with_session_dirs (w : World) (d : gset string) : World :=
  mkWorld (sessions w) d (recognizers w) (active_connections w)
          (delivered w) (summarize_calls w) (clock w) (ticks w).

Definition with_recognizers (w : World) (r : gmap string Recognizer) : World :=
  mkWorld (sessions w) (session_dirs w) r (active_connections w)
          (delivered w) (summarize_calls w) (clock w) (ticks w).

Definition with_connections (w : World) (l : list Conn)
    (log : list (Conn * Message)) : World :=
  mkWorld (sessions w) (session_dirs w) (recognizers w) l
          log (summarize_calls w) (clock w) (ticks w).

Definition with_summarize_calls (w : World) (l : list string) : World :=
  mkWorld (sessions w) (session_dirs w) (recognizers w) (active_connections w)
          (delivered w) l (clock w) (ticks w).

(** [datetime.now()]: read the clock, which then moves on. *)
Definition datetime_now (w : World) : Q * World :=
  (clock w (ticks w),
   mkWorld (sessions w) (session_dirs w) (recognizers w) (active_connections w)
           (delivered w) (summarize_calls w) (clock w) (S (ticks w))).

End Model.

(** Assignments to one key of a session dictionary. *)
Definition set_chunks_received (s : Session) (n : Z) : Session :=
  mkSession (id s) (created_at s) (status s) n (transcript s) (summary s)
            (expected_seq s) (buffered_chunks s) (last_summary_time s)
            (word_count s) (ended_at s).

Definition set_transcript (s : Session) (t : string) : Session :=
  mkSession (id s) (created_at s) (status s) (chunks_received s) t (summary s)
            (expected_seq s) (buffered_chunks s) (last_summary_time s)
            (word_count s) (ended_at s).

Definition set_word_count (s : Session) (n : Z) : Session :=
  mkSession (id s) (created_at s) (status s) (chunks_received s) (transcript s)
            (summary s) (expected_seq s) (buffered_chunks s)
            (last_summary_time s) n (ended_at s).

Definition set_summary (s : Session) (x : string) : Session :=
  mkSession (id s) (created_at s) (status s) (chunks_received s) (transcript s)
            x (expected_seq s) (buffered_chunks s) (last_summary_time s)
            (word_count s) (ended_at s).

Definition set_last_summary_time (s : Session) (t : Q) : Session :=
  mkSession (id s) (created_at s) (status s) (chunks_received s) (transcript s)
            (summary s) (expected_seq s) (buffered_chunks s) t
            (word_count s) (ended_at s).

Definition set_expected_seq (s : Session) (n : Z) : Session :=
  mkSession (id s) (created_at s) (status s) (chunks_received s) (transcript s)
            (summary s) n (buffered_chunks s) (last_summary_time s)
            (word_count s) (ended_at s).

Definition set_buffered_chunks (s : Session) (b : gmap Z Chunk) : Session :=
  mkSession (id s) (created_at s) (status s) (chunks_received s) (transcript s)
            (summary s) (expected_seq s) b (last_summary_time s)
            (word_count s) (ended_at s).

Definition set_status (s : Session) (st : Status) : Session :=
  mkSession (id s) (created_at s) st (chunks_received s) (transcript s)
            (summary s) (expected_seq s) (buffered_chunks s)
            (last_summary_time s) (word_count s) (ended_at s).

Definition set_ended_at (s : Session) (t : Q) : Session :=
  mkSession (id s) (created_at s) (status s) (chunks_received s) (transcript s)
            (summary s) (expected_seq s) (buffered_chunks s)
            (last_summary_time s) (word_count s) (Some t).

Module storage.
Section storage.
Context `{Collaborators}.

(** [self.sessions[session_id] = s]; also the write-back of a session
    dictionary that was mutated in place. *)
Definition store (w : World) (session_id : string) (s : Session) : World :=
  with_sessions w (<[session_id := s]> (sessions w)).

Definition create_session (w : World) (session_id : string) : World :=
  let w := with_session_dirs w ({[session_id]} ∪ session_dirs w) in
  let '(t0, w) := datetime_now w in
  let '(t1, w) := datetime_now w in
  store w session_id
    {| id := session_id; created_at := t0; status := active;
       chunks_received := 0; transcript := ""; summary := "";
       expected_seq := 0; buffered_chunks := ∅;
       last_summary_time := t1; word_count := 0;
       ended_at := None |}.

(** [None] is the [FileNotFoundError] of [write_bytes] when the session
    directory is missing. *)
Definition save_chunk (w : World) (session_id : string) (seq : Z)
    (chunk_data : list byte) (extension : string) : option (World * Chunk) :=
  if decide (session_id ∈ session_dirs w) then
    let chunk_path := mkChunk session_id seq extension chunk_data in
    let w :=
      match sessions w !! session_id with
      | Some s =>
          store w session_id (set_chunks_received s (chunks_received s + 1))
      | None => w
      end in
    Some (w, chunk_path)
  else None.

Definition update_transcript (w : World) (session_id text : string)
    (append : bool) : World :=
  match sessions w !! session_id with
  | None => w
  | Some s =>
      let s :=
        if append then set_transcript s (transcript s ++ " " ++ text)%string
        else set_transcript s text in
      let s := set_word_count s (py.count_words (transcript s)) in
      store w session_id s
  end.

Definition update_summary (w : World) (session_id summary : string) : World :=
  match sessions w !! session_id with
  | None => w
  | Some s =>
      let s := set_summary s summary in
      let '(t, w) := datetime_now w in
      let s := set_last_summary_time s t in
      store w session_id s
  end.

Definition get_transcript (w : World) (session_id : string) : string :=
  match sessions w !! session_id with
  | Some s => transcript s
  | None => ""
  end.

Definition get_summary (w : World) (session_id : string) : string :=
  match sessions w !! session_id with
  | Some s => summary s
  | None => ""
  end.

(** [None] is the empty dictionary. *)
Definition get_session_metadata (w : World) (session_id : string)
    : option Session :=
  sessions w !! session_id.

Definition should_generate_summary (w : World) (session_id : string)
    (word_threshold time_interval : Z) : bool * World :=
  match sessions w !! session_id with
  | None => (false, w)
  | Some session =>
      if (word_count session >=? word_threshold)%Z then (true, w)
      else
        let '(now, w) := datetime_now w in
        let time_since_last := (now - last_summary_time session)%Q in
        if Qle_bool (inject_Z time_interval) time_since_last
           && (word_count session >? 50)%Z
        then (true, w)
        else (false, w)
  end.

Definition mark_session_ended (w : World) (session_id : string) : World :=
  match sessions w !! session_id with
  | None => w
  | Some s =>
      let s := set_status s ended in
      let '(t, w) := datetime_now w in
      let s := set_ended_at s t in
      store w session_id s
  end.

Definition cleanup_session (w : World) (session_id : string) : World :=
  let w := with_session_dirs w (session_dirs w ∖ {[session_id]}) in
  with_sessions w (delete session_id (sessions w)).

Definition get_expected_seq (w : World) (session_id : string) : Z :=
  match sessions w !! session_id with
  | Some s => expected_seq s
  | None => 0
  end.

Definition increment_expected_seq (w : World) (session_id : string) : World :=
  match sessions w !! session_id with
  | None => w
  | Some s => store w session_id (set_expected_seq s (expected_seq s + 1))
  end.

Definition buffer_future_chunk (w : World) (session_id : string) (seq : Z)
    (chunk_path : Chunk) : World :=
  match sessions w !! session_id with
  | None => w
  | Some s =>
      store w session_id
        (set_buffered_chunks s (<[seq := chunk_path]> (buffered_chunks s)))
  end.

(** [str(chunk_path)] of a [Path] is never empty, so the truth test on the
    stored string only separates a present entry from an absent one. *)
Definition get_buffered_chunk (w : World) (session_id : string) (seq : Z)
    : option Chunk :=
  match sessions w !! session_id with
  | None => None
  | Some s => buffered_chunks s !! seq
  end.

Definition remove_buffered_chunk (w : World) (session_id : string) (seq : Z)
    : World :=
  match sessions w !! session_id with
  | None => w
  | Some s =>
      match buffered_chunks s !! seq with
      | None => w
      | Some _ =>
          store w session_id
            (set_buffered_chunks s (delete seq (buffered_chunks s)))
      end
  end.

End storage.
End storage.

Module transcriber.
Section transcriber.
Context `{Collaborators}.

Definition get_recognizer (w : World) (session_id : string)
    : Recognizer * World :=
  match recognizers w !! session_id with
  | Some r => (r, w)
  | None =>
      (KaldiRecognizer,
       with_recognizers w (<[session_id := KaldiRecognizer]> (recognizers w)))
  end.

Definition transcribe_chunk (w : World) (session_id : string) (wav_path : Wav)
    : World * option string :=
  let '(recognizer, w) := get_recognizer w session_id in
  let '(recognizer, text) := recognize recognizer wav_path in
  let w := with_recognizers w (<[session_id := recognizer]> (recognizers w)) in
  if py.truthy text then (w, Some text) else (w, None).

Definition finalize_session (w : World) (session_id : string)
    : World * option string :=
  match recognizers w !! session_id with
  | Some recognizer =>
      let text := FinalResult recognizer in
      let w := with_recognizers w (delete session_id (recognizers w)) in
      (w, if py.truthy text then Some text else None)
  | None => (w, None)
  end.

End transcriber.
End transcriber.

Module summarizer.
Section summarizer.
Context `{Collaborators}.

(** The call is recorded in [summarize_calls]. *)
Definition summarize (w : World) (text : string) : World * string :=
  let w := with_summarize_calls w (summarize_calls w ++ [text]) in
  if negb (py.truthy text) || (py.len (py.strip text) <? 50)%Z
  then (w, "")
  else (w, lexrank text).

End summarizer.
End summarizer.

Module WebSocketManager.
Section WebSocketManager.
Context `{Collaborators}.

Definition connect (w : World) (websocket : Conn) : World :=
  with_connections w (active_connections w ++ [websocket]) (delivered w).

(** [list.remove]: drop the first occurrence. *)
Fixpoint list_remove (x : Conn) (l : list Conn) : list Conn :=
  match l with
  | [] => []
  | y :: l' => if decide (x = y) then l' else y :: list_remove x l'
  end.

Definition disconnect (w : World) (websocket : Conn) : World :=
  if decide (websocket ∈ active_connections w)
  then with_connections w (list_remove websocket (active_connections w))
                        (delivered w)
  else w.

(** The sending loop: the trace of accepted messages and the list
    [disconnected], both in iteration order. *)
Definition send_all (message : Message) (conns : list Conn)
    : list (Conn * Message) * list Conn :=
  foldl (fun '(log, disconnected) connection =>
           if send_text connection message
           then (log ++ [(connection, message)], disconnected)
           else (log, disconnected ++ [connection]))
        ([], []) conns.

Definition broadcast (w : World) (message : Message) : World :=
  match active_connections w with
  | [] => w
  | _ =>
      let '(log, disconnected) := send_all message (active_connections w) in
      let w := with_connections w (active_connections w) (delivered w ++ log) in
      foldl disconnect w disconnected
  end.

End WebSocketManager.
End WebSocketManager.

Module workers.
Section workers.
Context `{Collaborators}.

Definition _convert_to_wav (session_id : string) (seq : Z) (input_path : Chunk)
    : option Wav :=
  ffmpeg session_id seq input_path.

Definition _broadcast_transcript_update (w : World) (session_id text : string)
    : World :=
  WebSocketManager.broadcast w
    (transcript_update session_id text (storage.get_transcript w session_id)).

Definition _broadcast_summary (w : World) (session_id summary : string)
    : World :=
  WebSocketManager.broadcast w (summary_msg session_id summary).

Definition _generate_and_broadcast_summary (w : World) (session_id : string)
    : World :=
  let transcript := storage.get_transcript w session_id in
  if negb (py.truthy transcript) || (py.count_words transcript <? 30)%Z
  then w
  else
    let '(w, summary) := summarizer.summarize w transcript in
    if py.truthy summary then
      let w := storage.update_summary w session_id summary in
      _broadcast_summary w session_id summary
    else w.

(** Lines 58-77 of [process_chunk]: what happens to the expected chunk
    between a successful conversion and the drain of the buffer. *)
Definition transcribe_and_advance (w : World) (session_id : string)
    (wav_path : Wav) : World :=
  let '(w, text) := transcriber.transcribe_chunk w session_id wav_path in
  let w :=
    match text with
    | Some text =>
        let w := storage.update_transcript w session_id text true in
        let w := _broadcast_transcript_update w session_id text in
        let '(trigger, w) :=
          storage.should_generate_summary w session_id
            SUMMARY_WORD_THRESHOLD SUMMARY_TIME_INTERVAL in
        if trigger then _generate_and_broadcast_summary w session_id else w
    | None => w
    end in
  storage.increment_expected_seq w session_id.

(** [process_chunk] and [_process_buffered_chunks] call each other; the
    fuel bounds the depth of that recursion and [None] means it ran out. *)
Fixpoint process_chunk_fuel (fuel : nat) (w : World) (session_id : string)
    (seq : Z) (chunk_path : Chunk) {struct fuel} : option World :=
  match fuel with
  | O => None
  | S fuel =>
      let expected_seq := storage.get_expected_seq w session_id in
      if (seq <? expected_seq)%Z then Some w
      else if (seq >? expected_seq)%Z then
        Some (storage.buffer_future_chunk w session_id seq chunk_path)
      else
        match _convert_to_wav session_id seq chunk_path with
        | None => Some w
        | Some wav_path =>
            let w := transcribe_and_advance w session_id wav_path in
            _process_buffered_chunks_fuel fuel w session_id
        end
  end
with _process_buffered_chunks_fuel (fuel : nat) (w : World)
    (session_id : string) {struct fuel} : option World :=
  match fuel with
  | O => None
  | S fuel =>
      let expected_seq := storage.get_expected_seq w session_id in
      match storage.get_buffered_chunk w session_id expected_seq with
      | None => Some w
      | Some buffered_chunk =>
          let w := storage.remove_buffered_chunk w session_id expected_seq in
          match process_chunk_fuel fuel w session_id expected_seq buffered_chunk with
          | None => None
          | Some w => _process_buffered_chunks_fuel fuel w session_id
          end
      end
  end.

(** The number of chunks buffered for a session. *)
Definition buffered_count (w : World) (session_id : string) : nat :=
  match sessions w !! session_id with
  | Some s => size (buffered_chunks s)
  | None => O
  end.

(** Every nested call follows the removal of one buffered chunk, so twice
    the buffer size plus two always suffices (see [process_chunk_returns]). *)
Definition enough_fuel (w : World) (session_id : string) : nat :=
  (2 * buffered_count w session_id + 2)%nat.

Definition process_chunk (w : World) (session_id : string) (seq : Z)
    (chunk_path : Chunk) : World :=
  default w (process_chunk_fuel (enough_fuel w session_id) w session_id seq chunk_path).

Definition _process_buffered_chunks (w : World) (session_id : string) : World :=
  default w (_process_buffered_chunks_fuel (enough_fuel w session_id) w session_id).

Definition finalize_session (w : World) (session_id : string) : World :=
  let '(w, final_text) := transcriber.finalize_session w session_id in
  let w :=
    match final_text with
    | Some final_text => storage.update_transcript w session_id final_text true
    | None => w
    end in
  let transcript := storage.get_transcript w session_id in
  let w :=
    if py.truthy transcript && (py.count_words transcript >=? 10)%Z then
      let '(w, summary) := summarizer.summarize w transcript in
      let w := storage.update_summary w session_id summary in
      _broadcast_summary w session_id summary
    else w in
  let w := storage.mark_session_ended w session_id in
  WebSocketManager.broadcast w
    (session_ended session_id (storage.get_transcript w session_id)
                   (storage.get_summary w session_id)).

End workers.
End workers.

Module main.
Section main.
Context `{Collaborators}.

(** The uploaded file: [Path(chunk.filename).suffix.lower()] and the bytes
    read from it. *)
Record UploadFile := mkUpload {
  upload_suffix : string;
  upload_data : list byte
}.

(** What an endpoint answers: a JSON body or an [HTTPException]. *)
Inductive Response :=
| created (session_id : string)
| received (session_id : string) (seq size : Z)
| ended_response (session_id transcript summary : string)
                 (metadata : option Session)
| deleted (session_id : string)
| HTTPException (status_code : Z).

Definition create_session (w : World) (session_id : string)
    : World * Response :=
  (storage.create_session w session_id, created session_id).

(** [asyncio.create_task(processor.process_chunk(...))] is run at once. *)
Definition upload_chunk (w : World) (session_id : string) (seq : Z)
    (chunk : UploadFile) : World * Response :=
  let chunk_data := upload_data chunk in
  if (Z.of_nat (length chunk_data) >? MAX_CHUNK_SIZE)%Z
  then (w, HTTPException 413)
  else
    let extension := upload_suffix chunk in
    if decide (extension ∈ SUPPORTED_FORMATS) then
      match storage.save_chunk w session_id seq chunk_data extension with
      | None => (w, HTTPException 500)
      | Some (w, chunk_path) =>
          (workers.process_chunk w session_id seq chunk_path,
           received session_id seq (Z.of_nat (length chunk_data)))
      end
    else (w, HTTPException 400).

Definition end_session (w : World) (session_id : string) : World * Response :=
  let w := workers.finalize_session w session_id in
  (w, ended_response session_id
        (storage.get_transcript w session_id)
        (storage.get_summary w session_id)
        (storage.get_session_metadata w session_id)).

Definition delete_session (w : World) (session_id : string)
    : World * Response :=
  (storage.cleanup_session w session_id, deleted session_id).

(** One request served by the application. *)
Inductive Request :=
| POST_create (session_id : string)
| POST_upload (session_id : string) (seq : Z) (chunk : UploadFile)
| POST_end (session_id : string)
| DELETE_session (session_id : string)
| WS_connect (websocket : Conn)
| WS_disconnect (websocket : Conn).

Definition serve (w : World) (r : Request) : World :=
  match r with
  | POST_create sid => fst (create_session w sid)
  | POST_upload sid seq chunk => fst (upload_chunk w sid seq chunk)
  | POST_end sid => fst (end_session w sid)
  | DELETE_session sid => fst (delete_session w sid)
  | WS_connect c => WebSocketManager.connect w c
  | WS_disconnect c => WebSocketManager.disconnect w c
  end.

(** The process right after start-up: no session, no recogniser, no client. *)
Definition startup (dirs : gset string) (clk : nat -> Q) : World :=
  mkWorld ∅ dirs ∅ [] [] [] clk O.

(** The worlds the application can be in after serving some requests. *)
Inductive reachable : World -> Prop :=
| reach_startup dirs clk : reachable (startup dirs clk)
| reach_serve w r : reachable w -> reachable (serve w r).

End main.
End main.

(* ===================================================================== *)
(** ** Vocabulary of the statements *)
(* ===================================================================== *)

Section vocabulary.
Context `{Collaborators}.
Import storage workers.

(** The connections that accept a message. *)
Definition accepts (m : Message) (c : Conn) : Prop := send_text c m = true.

(** The connections that refuse a message. *)
Definition refuses (m : Message) (c : Conn) : Prop := send_text c m = false.

#[global] Instance accepts_dec m c : Decision (accepts m c).
Proof. unfold accepts. apply _. Defined.

#[global] Instance refuses_dec m c : Decision (refuses m c).
Proof. unfold refuses. apply _. Defined.

(** [acts_on sid Φ w w']: from [w] to [w'] the session table changed at
    most at [sid], where a session [s] became some [s'] with [Φ s s']; a
    missing session stays missing. *)
Definition acts_on (sid : string) (Φ : Session -> Session -> Prop)
    (w w' : World) : Prop :=
  match sessions w !! sid with
  | None => sessions w' = sessions w
  | Some s => exists s', sessions w' = <[sid := s']> (sessions w) /\ Φ s s'
  end.

(** What [_generate_and_broadcast_summary] may do to a session: nothing,
    or store a non-empty summary together with the time of the update. *)
Definition summary_refreshed (s s' : Session) : Prop :=
  s' = s \/
  exists x t, x <> "" /\ s' = set_last_summary_time (set_summary s x) t.

(** The recogniser a chunk of the session is fed to, and what it answers. *)
Definition recognized (w : World) (sid : string) (wav : Wav)
    : Recognizer * string :=
  recognize (default KaldiRecognizer (recognizers w !! sid)) wav.

(** The change of a session over [transcribe_and_advance] when the
    recogniser answered [text]. *)
Definition pipeline_step (text : string) (s s' : Session) : Prop :=
  exists s2,
    summary_refreshed
      (if py.truthy text
       then set_word_count (set_transcript s (transcript s ++ " " ++ text)%string)
              (py.count_words (transcript s ++ " " ++ text)%string)
       else s) s2
    /\ s' = set_expected_seq s2 (expected_seq s2 + 1).

(** Only the session table and the position of the clock differ. *)
Definition env_kept (w w' : World) : Prop :=
  recognizers w' = recognizers w /\
  active_connections w' = active_connections w /\
  delivered w' = delivered w /\
  summarize_calls w' = summarize_calls w /\
  session_dirs w' = session_dirs w /\
  clock w' = clock w.

(** The trailing text the recogniser hands over at the end of a session. *)
Definition flush_text (w : World) (sid : string) : option string :=
  snd (transcriber.finalize_session w sid).

(** A session after the flush text was appended. *)
Definition flushed (w : World) (sid : string) (s : Session) : Session :=
  match flush_text w sid with
  | Some ft =>
      set_word_count (set_transcript s (transcript s ++ " " ++ ft)%string)
        (py.count_words (transcript s ++ " " ++ ft)%string)
  | None => s
  end.

(** The guard of the final summary, line 195 of workers.py. *)
Definition final_summary_due (t : string) : bool :=
  py.truthy t && (py.count_words t >=? 10)%Z.

(** The value [TextSummarizer.summarize] returns. *)
Definition summary_of (t : string) : string :=
  if negb (py.truthy t) || (py.len (py.strip t) <? 50)%Z then ""
  else lexrank t.

(** The world after the flush text was appended (lines 189-191). *)
Definition after_flush (w : World) (sid : string) : World :=
  match transcriber.finalize_session w sid with
  | (w1, Some ft) => update_transcript w1 sid ft true
  | (w1, None) => w1
  end.

(** The world after the final summary (lines 194-200). *)
Definition after_final_summary (w : World) (sid : string) : World :=
  let w2 := after_flush w sid in
  let t := get_transcript w2 sid in
  if final_summary_due t then
    _broadcast_summary
      (update_summary (with_summarize_calls w2 (summarize_calls w2 ++ [t]))
         sid (summary_of t))
      sid (summary_of t)
  else w2.

(** The change of a session over [finalize_session]. *)
Definition finalized (w : World) (sid : string) (s s' : Session) : Prop :=
  exists t_sum t_end,
    s' = set_ended_at
           (set_status
              (if final_summary_due (transcript (flushed w sid s))
               then set_last_summary_time
                      (set_summary (flushed w sid s)
                         (summary_of (transcript (flushed w sid s)))) t_sum
               else flushed w sid s)
              ended)
           t_end.

(** Every buffered key is strictly greater than [expected_seq]. *)
Definition buffer_ahead (s : Session) : Prop :=
  forall k c, buffered_chunks s !! k = Some c -> expected_seq s < k.

(** Every buffered key is at least [expected_seq]: the state between the
    increment and the drain. *)
Definition buffer_not_behind (s : Session) : Prop :=
  forall k c, buffered_chunks s !! k = Some c -> expected_seq s <= k.

Definition ahead_at (w : World) (sid : string) : Prop :=
  forall s, sessions w !! sid = Some s -> buffer_ahead s.

Definition not_behind_at (w : World) (sid : string) : Prop :=
  forall s, sessions w !! sid = Some s -> buffer_not_behind s.

Definition sequencer_invariant (w : World) : Prop :=
  forall sid, ahead_at w sid.

(** The arrivals of one session, handled one after the other. *)
Definition deliver (w : World) (sid : string) (arrivals : list (Z * Chunk))
    : World :=
  foldl (fun w '(seq, chunk) => process_chunk w sid seq chunk) w arrivals.





(** No summary message of the trace carries an empty summary. *)
Definition summaries_nonempty (log : list (Conn * Message)) : Prop :=
  forall c sid x, (c, summary_msg sid x) ∈ log -> x <> "".

(** From [w] to [w'] no stored summary was replaced by an empty one and
    no empty summary was sent. *)
Definition summaries_kept (w w' : World) : Prop :=
  (forall sid s, sessions w !! sid = Some s ->
      exists s', sessions w' !! sid = Some s'
                 /\ (summary s' = summary s \/ summary s' <> ""))
  /\ exists new, delivered w' = delivered w ++ new /\ summaries_nonempty new.

End vocabulary.

(* ===================================================================== *)
(** ** Further vocabulary: how records and worlds evolve *)
(* ===================================================================== *)

Section evolution.
Context `{Collaborators}.
Import storage workers.

(** [word_count] is the number of words of [transcript]. *)
Definition counted (s : Session) : Prop :=
  word_count s = py.count_words (transcript s).

(** What the processing of chunks may do to a session record: the identity
    fields, the status and the upload counter stay, [expected_seq] does not
    go down, the transcript is only appended to, and a word count that was
    right stays right and does not go down. *)
Definition extends (s s' : Session) : Prop :=
  id s' = id s /\ created_at s' = created_at s /\ status s' = status s /\
  chunks_received s' = chunks_received s /\ ended_at s' = ended_at s /\
  expected_seq s <= expected_seq s' /\
  (exists suffix, transcript s' = (transcript s ++ suffix)%string) /\
  (counted s -> counted s' /\ word_count s <= word_count s').

(** What the processing of chunks of session [sid] may do to the world: the
    record of [sid] is extended, no other record and no other recogniser is
    touched, and the directories and the clock are as before. *)
Definition chunk_effect (sid : string) (w w' : World) : Prop :=
  acts_on sid extends w w'
  /\ session_dirs w' = session_dirs w
  /\ clock w' = clock w
  /\ forall sid', sid' <> sid -> recognizers w' !! sid' = recognizers w !! sid'.

(** A session record as the application keeps it, stored under [sid] in a
    world with directories [dirs]. *)
Definition well_kept (dirs : gset string) (sid : string) (s : Session) : Prop :=
  sid ∈ dirs /\ id s = sid /\ 0 <= expected_seq s /\ 0 <= chunks_received s
  /\ counted s /\ (status s = ended <-> is_Some (ended_at s)).

Definition all_well_kept (w : World) : Prop :=
  forall sid s, sessions w !! sid = Some s -> well_kept (session_dirs w) sid s.

(** Every transcript update of the trace carries a full transcript that
    ends with a blank and the new text. *)
Definition updates_carry_delta (log : list (Conn * Message)) : Prop :=
  forall c sid text full,
    (c, transcript_update sid text full) ∈ log ->
    exists before, full = (before ++ " " ++ text)%string.

(** From [w] to [w'] the session [sid], if it was there, is still there, and
    the transcript updates sent in between carry their text at the end. *)
Definition updates_kept (sid : string) (w w' : World) : Prop :=
  is_Some (sessions w !! sid) ->
  is_Some (sessions w' !! sid)
  /\ exists new, delivered w' = delivered w ++ new /\ updates_carry_delta new.

End evolution.

(* ===================================================================== *)
(** ** The names of the chunk files *)
(* ===================================================================== *)

Module file_names.

(** [k] times the character 0. *)
Fixpoint zeros (k : nat) : string :=
  match k with
  | O => ""
  | S k => String "0" (zeros k)
  end.

(** The decimal digits of a natural number, without leading zeros. *)
Definition digits (n : N) : string := DecimalString.NilEmpty.string_of_uint (N.to_uint n).

(** [format(z, "05d")]: the sign, if any, then the digits, filled up with
    zeros behind the sign to a width of five characters in all. *)
Definition format_05d (z : Z) : string :=
  if (z <? 0)%Z then
    String "-" (zeros (4 - String.length (digits (Z.to_N (- z))))
                ++ digits (Z.to_N (- z)))
  else
    (zeros (5 - String.length (digits (Z.to_N z))) ++ digits (Z.to_N z))%string.

(** [f"chunk_{seq:05d}{extension}"], the file [save_chunk] writes below the
    [chunks] directory of the session. *)
Definition chunk_file_name (seq : Z) (extension : string) : string :=
  ("chunk_" ++ format_05d seq ++ extension)%string.

(** [f"chunk_{seq:05d}.wav"], the file [get_converted_chunk_path] names below
    the [converted] directory of the session. *)
Definition converted_file_name (seq : Z) : string :=
  ("chunk_" ++ format_05d seq ++ ".wav")%string.

(** Reading a number back from what [format_05d] printed. *)
Definition read_05d (s : string) : option Z :=
  match s with
  | String "-" r =>
      (fun d => - Z.of_N (N.of_uint d)) <$> DecimalString.NilEmpty.uint_of_string r
  | _ => (fun d => Z.of_N (N.of_uint d)) <$> DecimalString.NilEmpty.uint_of_string s
  end.

(** No full stop occurs in the text. *)
Fixpoint dotless (s : string) : bool :=
  match s with
  | EmptyString => true
  | String a s => negb (Ascii.eqb a ".") && dotless s
  end.

End file_names.

(* ===================================================================== *)
(** ** A concrete set of collaborators and some concrete worlds *)
(* ===================================================================== *)

Module demo.

(** The speech in a chunk, written out in its bytes. *)
Definition decode (c : Chunk) : string :=
  py.strip (string_of_list_byte (chunk_bytes c)).

(** ffmpeg refuses an empty file; the recogniser state is the text it has
    not handed out yet; the summariser hands back the stripped text;
    connection 2 is broken. *)
Definition env : Collaborators :=
  {| Wav := Chunk;
     Recognizer := string;
     ffmpeg := fun _ _ c =>
                 match chunk_bytes c with
                 | [] => None
                 | _ => Some c
                 end;
     KaldiRecognizer := "";
     recognize := fun _ wav => ("", decode wav);
     FinalResult := fun r => r;
     lexrank := py.strip;
     send_text := fun c _ => negb (c =? 2)%nat |}.

(** A clock that is read every ten seconds. *)
Definition clk (n : nat) : Q := inject_Z (10 * Z.of_nat n).

Definition audio (sid : string) (seq : Z) (speech : string) : Chunk :=
  mkChunk sid seq ".webm" (list_byte_of_string speech).

Definition upload (speech : string) : main.UploadFile :=
  main.mkUpload ".webm" (list_byte_of_string speech).

Definition session (t x : string) (e : Z) (last : Q) : Session :=
  {| id := "S1"; created_at := 0; status := active; chunks_received := 0;
     transcript := t; summary := x; expected_seq := e;
     buffered_chunks := ∅; last_summary_time := last;
     word_count := py.count_words t; ended_at := None |}.

(** A world with the one session ["S1"], an optional recogniser for it,
    three clients, and a clock at its [n]-th reading. *)
Definition world (s : Session) (r : option string) (n : nat) : @World env :=
  @mkWorld env {["S1" := s]} {["S1"]}
    (match r with Some r => {["S1" := r]} | None => ∅ end)
    [1; 2; 3]%nat [] [] clk n.

Definition fresh : @World env := world (session "" "" 0 0) None 2.

Definition c0 : Chunk := audio "S1" 0 "good morning everyone".
Definition c1 : Chunk := audio "S1" 1 "let us begin".
Definition c2 : Chunk := audio "S1" 2 "with the agenda".
Definition broken : Chunk := audio "S1" 0 "".
Definition silence : Chunk := audio "S1" 0 "   ".

Definition five : string := " one two three four five".
Definition six : string := "six seven eight nine ten eleven".
Definition initials : string := " a b c d e".
Definition more_initials : string := "f g h i j k".

(** A session about to be closed, with a summary from earlier on. *)
Definition closing : @World env :=
  world (session initials "Greeting." 3 0) (Some more_initials) 2.

Definition sixty_words : Session :=
  {| id := "S1"; created_at := 0; status := active; chunks_received := 0;
     transcript := ""; summary := ""; expected_seq := 0;
     buffered_chunks := ∅; last_summary_time := 0;
     word_count := 60; ended_at := None |}.

End demo.

Module more_demo.

Import demo.

(** A session that expects chunk 0 and holds, for number 1, a chunk file
    that ffmpeg will refuse. *)
Definition waiting_session : Session :=
  {| id := "S1"; created_at := 0; status := active; chunks_received := 2;
     transcript := ""; summary := ""; expected_seq := 0;
     buffered_chunks := {[1 := audio "S1" 1 ""]}; last_summary_time := 0;
     word_count := 0; ended_at := None |}.

Definition waiting : @World env := world waiting_session None 2.

(** The world after a session was created and its chunk 0 uploaded. *)
Definition visited : @World env :=
  main.serve (H := env)
    (main.serve (H := env) (main.startup (H := env) ∅ clk)
       (main.POST_create "S1"))
    (main.POST_upload "S1" 0 (upload "good morning everyone")).

(** The record of the session in [visited]. *)
Definition visited_session : Session :=
  Eval vm_compute in default (session "" "" 0 0) (sessions visited !! "S1").

(** [n] times the same word. *)
Fixpoint babble (n : nat) : string :=
  match n with
  | O => ""
  | S n => (" word" ++ babble n)%string
  end.

Definition talkative : @World env := world (session (babble 200) "" 7 0) None 2.

End more_demo.

(* ===================================================================== *)
(** ** The broadcaster *)
(* ===================================================================== *)

Section broadcast_facts.
Context `{Collaborators}.
Import WebSocketManager.

Lemma send_all_acc m conns log disc :
  foldl (fun '(log, disconnected) connection =>
           if send_text connection m
           then (log ++ [(connection, m)], disconnected)
           else (log, disconnected ++ [connection]))
        (log, disc) conns
  = (log ++ ((fun c => (c, m)) <$> filter (accepts m) conns),
     disc ++ filter (refuses m) conns).
Proof.
  revert log disc. induction conns as [|c conns IH]; intros log disc; simpl.
  - by rewrite !app_nil_r.
  - rewrite !filter_cons.
    destruct (send_text c m) eqn:E; rewrite IH.
    + rewrite (decide_True (P := accepts m c)) by done.
      rewrite (decide_False (P := refuses m c))
        by (unfold refuses; congruence).
      by rewrite fmap_cons, <- app_assoc.
    + rewrite (decide_False (P := accepts m c))
        by (unfold accepts; congruence).
      rewrite (decide_True (P := refuses m c)) by done.
      by rewrite <- app_assoc.
Qed.

Lemma send_all_spec m conns :
  send_all m conns
  = ((fun c => (c, m)) <$> filter (accepts m) conns, filter (refuses m) conns).
Proof. unfold send_all. by rewrite send_all_acc. Qed.

Lemma list_remove_app_notin x p l :
  x ∉ p -> list_remove x (p ++ x :: l) = p ++ l.
Proof.
  induction p as [|y p IH]; intros Hx; simpl.
  - by rewrite decide_True.
  - apply not_elem_of_cons in Hx as [Hne Hx].
    rewrite decide_False by done. by rewrite IH.
Qed.

(** Everything but the registry is untouched by the pruning loop. *)
Lemma foldl_disconnect_frame disc w :
  let w' := foldl disconnect w disc in
  sessions w' = sessions w /\ session_dirs w' = session_dirs w /\
  recognizers w' = recognizers w /\ delivered w' = delivered w /\
  summarize_calls w' = summarize_calls w /\ clock w' = clock w /\
  ticks w' = ticks w.
Proof.
  revert w. induction disc as [|c disc IH]; intros w; simpl; [done|].
  specialize (IH (disconnect w c)). simpl in IH.
  destruct IH as (-> & -> & -> & -> & -> & -> & ->).
  unfold disconnect. by case_decide.
Qed.

(** Pruning the refusing connections of [p ++ l], of which those of [p]
    all accept, leaves [p] and the accepting part of [l]. *)
Lemma foldl_disconnect_connections m l p w :
  Forall (accepts m) p ->
  active_connections w = p ++ l ->
  active_connections (foldl disconnect w (filter (refuses m) l))
  = p ++ filter (accepts m) l.
Proof.
  revert p w. induction l as [|c l IH]; intros p w Hp Hw; simpl.
  - done.
  - rewrite !filter_cons. destruct (decide (refuses m c)) as [Hc|Hc].
    + rewrite decide_False
        by (unfold accepts, refuses in *; congruence).
      simpl. apply IH; [done|].
      unfold disconnect. rewrite Hw.
      rewrite decide_True by set_solver. simpl.
      apply list_remove_app_notin. intros Hin.
      rewrite Forall_forall in Hp. specialize (Hp c Hin).
      unfold accepts, refuses in *. congruence.
    + assert (accepts m c) as Ha.
      { unfold accepts, refuses in *. by destruct (send_text c m). }
      rewrite decide_True by done.
      rewrite (IH (p ++ [c]) w).
      * by rewrite <- app_assoc.
      * apply Forall_app. split; [done|]. by apply Forall_singleton.
      * by rewrite <- app_assoc.
Qed.

Lemma broadcast_frame w m :
  let w' := broadcast w m in
  sessions w' = sessions w /\ session_dirs w' = session_dirs w /\
  recognizers w' = recognizers w /\
  summarize_calls w' = summarize_calls w /\ clock w' = clock w /\
  ticks w' = ticks w.
Proof.
  unfold broadcast. destruct (active_connections w) as [|c l] eqn:E; [done|].
  rewrite send_all_spec.
  pose proof (foldl_disconnect_frame (filter (refuses m) (c :: l))
    (with_connections w (c :: l)
       (delivered w ++ ((fun c => (c, m)) <$> filter (accepts m) (c :: l)))))
    as Hf.
  simpl in Hf. simpl. destruct Hf as (? & ? & ? & ? & ? & ? & ?). done.
Qed.

Lemma broadcast_delivered w m :
  delivered (broadcast w m)
  = delivered w ++ ((fun c => (c, m)) <$> filter (accepts m) (active_connections w)).
Proof.
  unfold broadcast. destruct (active_connections w) as [|c l] eqn:E.
  - by rewrite filter_nil, app_nil_r.
  - rewrite send_all_spec.
    pose proof (foldl_disconnect_frame (filter (refuses m) (c :: l))
      (with_connections w (c :: l)
         (delivered w ++ ((fun c => (c, m)) <$> filter (accepts m) (c :: l)))))
      as Hf.
    simpl in Hf. simpl. by destruct Hf as (? & ? & ? & -> & ?).
Qed.

Lemma broadcast_connections w m :
  active_connections (broadcast w m) = filter (accepts m) (active_connections w).
Proof.
  unfold broadcast. destruct (active_connections w) as [|c l] eqn:E; [done|].
  rewrite send_all_spec.
  by rewrite (foldl_disconnect_connections m (c :: l) []).
Qed.

Lemma broadcast_sessions w m : sessions (broadcast w m) = sessions w.
Proof. apply broadcast_frame. Qed.
Lemma broadcast_recognizers w m : recognizers (broadcast w m) = recognizers w.
Proof. apply broadcast_frame. Qed.
Lemma broadcast_session_dirs w m : session_dirs (broadcast w m) = session_dirs w.
Proof. apply broadcast_frame. Qed.
Lemma broadcast_summarize_calls w m :
  summarize_calls (broadcast w m) = summarize_calls w.
Proof. apply broadcast_frame. Qed.
Lemma broadcast_clock w m : clock (broadcast w m) = clock w.
Proof. apply broadcast_frame. Qed.
Lemma broadcast_ticks w m : ticks (broadcast w m) = ticks w.
Proof. apply broadcast_frame. Qed.

(** C8. One [broadcast] hands the message to every registered connection
    whose [send_text] does not raise, whatever the other connections do;
    the registry afterwards holds exactly those connections, so a
    connection that failed receives nothing from any later broadcast. *)
Theorem broadcast_isolates_failures (w : World) (m m' : Message) :
  let w' := broadcast w m in
  delivered w'
    = delivered w ++ ((fun c => (c, m)) <$> filter (accepts m) (active_connections w))
  /\ active_connections w' = filter (accepts m) (active_connections w)
  /\ (forall c, c ∈ active_connections w -> accepts m c ->
        ((c, m) ∈ drop (length (delivered w)) (delivered w'))
        /\ (c ∈ active_connections w'))
  /\ (forall c, refuses m c ->
        (c ∉ active_connections w')
        /\ ((c, m') ∉ drop (length (delivered w')) (delivered (broadcast w' m')))).
Proof.
  simpl. rewrite !broadcast_delivered, !broadcast_connections.
  rewrite !drop_app_length.
  split; [done|]. split; [done|]. split.
  - intros c Hin Hacc. split.
    + apply list_elem_of_fmap. exists c. split; [done|].
      by apply list_elem_of_filter.
    + by apply list_elem_of_filter.
  - intros c Href.
    assert (c ∉ filter (accepts m) (active_connections w)) as Hout.
    { intros [Hacc _]%list_elem_of_filter.
      unfold accepts, refuses in *. congruence. }
    split; [done|].
    intros (c' & Heq & Hin)%list_elem_of_fmap.
    injection Heq as ->.
    apply list_elem_of_filter in Hin as [_ Hin]. done.
Qed.

End broadcast_facts.

(* ===================================================================== *)
(** ** Effects of the pipeline stages on the session table *)
(* ===================================================================== *)

Section pipeline_facts.
Context `{Collaborators}.
Import storage workers.

Lemma truthy_true (x : string) : py.truthy x = true <-> x <> "".
Proof. destruct x; simpl; split; congruence. Qed.

Lemma truthy_false (x : string) : py.truthy x = false <-> x = "".
Proof. destruct x; simpl; split; congruence. Qed.

Lemma acts_on_same sid (Φ : Session -> Session -> Prop) w w' :
  (forall s, Φ s s) -> sessions w' = sessions w -> acts_on sid Φ w w'.
Proof.
  intros Hrefl Heq. unfold acts_on.
  destruct (sessions w !! sid) as [s|] eqn:Es; [|done].
  exists s. split; [|done]. by rewrite insert_id.
Qed.

Lemma acts_on_compose sid (Φ1 Φ2 Φ3 : Session -> Session -> Prop) w w1 w2 :
  (forall a b c, Φ1 a b -> Φ2 b c -> Φ3 a c) ->
  acts_on sid Φ1 w w1 -> acts_on sid Φ2 w1 w2 -> acts_on sid Φ3 w w2.
Proof.
  unfold acts_on. intros Hc H1 H2.
  destruct (sessions w !! sid) as [s|] eqn:Es.
  - destruct H1 as (s1 & E1 & P1). rewrite E1, lookup_insert_eq in H2.
    destruct H2 as (s2 & E2 & P2). exists s2. split; [|by eapply Hc].
    by rewrite E2, insert_insert_eq.
  - rewrite H1, Es in H2. by rewrite H2.
Qed.

Lemma acts_on_weaken sid (Φ Ψ : Session -> Session -> Prop) w w' :
  (forall a b, Φ a b -> Ψ a b) -> acts_on sid Φ w w' -> acts_on sid Ψ w w'.
Proof.
  unfold acts_on. intros Hi Ha.
  destruct (sessions w !! sid); [|done].
  destruct Ha as (s' & ? & ?). exists s'. auto.
Qed.

Lemma acts_on_other sid Φ w w' sid' :
  acts_on sid Φ w w' -> sid' <> sid -> sessions w' !! sid' = sessions w !! sid'.
Proof.
  unfold acts_on. intros Ha Hne.
  destruct (sessions w !! sid).
  - destruct Ha as (s' & -> & _). by rewrite lookup_insert_ne.
  - by rewrite Ha.
Qed.

Lemma acts_on_lookup sid Φ w w' s :
  acts_on sid Φ w w' -> sessions w !! sid = Some s ->
  exists s', sessions w' !! sid = Some s' /\ Φ s s'.
Proof.
  unfold acts_on. intros Ha Es. rewrite Es in Ha.
  destruct Ha as (s' & -> & ?). exists s'. by rewrite lookup_insert_eq.
Qed.

Lemma acts_on_missing sid Φ w w' :
  acts_on sid Φ w w' -> sessions w !! sid = None -> sessions w' = sessions w.
Proof. unfold acts_on. intros Ha Es. by rewrite Es in Ha. Qed.

(** *** storage *)

Lemma update_transcript_acts w sid text :
  acts_on sid
    (fun s s' =>
       s' = set_word_count (set_transcript s (transcript s ++ " " ++ text)%string)
              (py.count_words (transcript s ++ " " ++ text)%string))
    w (update_transcript w sid text true).
Proof.
  unfold acts_on, update_transcript.
  destruct (sessions w !! sid) as [s|]; [|done]. by eexists.
Qed.

Lemma update_summary_acts w sid x :
  acts_on sid
    (fun s s' => s' = set_last_summary_time (set_summary s x) (clock w (ticks w)))
    w (update_summary w sid x).
Proof.
  unfold acts_on, update_summary.
  destruct (sessions w !! sid) as [s|]; [|done]. by eexists.
Qed.

Lemma increment_expected_seq_acts w sid :
  acts_on sid (fun s s' => s' = set_expected_seq s (expected_seq s + 1))
    w (increment_expected_seq w sid).
Proof.
  unfold acts_on, increment_expected_seq.
  destruct (sessions w !! sid) as [s|]; [|done]. by eexists.
Qed.

Lemma buffer_future_chunk_acts w sid seq c :
  acts_on sid
    (fun s s' => s' = set_buffered_chunks s (<[seq := c]> (buffered_chunks s)))
    w (buffer_future_chunk w sid seq c).
Proof.
  unfold acts_on, buffer_future_chunk.
  destruct (sessions w !! sid) as [s|]; [|done]. by eexists.
Qed.

Lemma remove_buffered_chunk_acts w sid seq :
  acts_on sid
    (fun s s' => s' = set_buffered_chunks s (delete seq (buffered_chunks s)))
    w (remove_buffered_chunk w sid seq).
Proof.
  unfold acts_on, remove_buffered_chunk.
  destruct (sessions w !! sid) as [s|] eqn:Es; [|done].
  destruct (buffered_chunks s !! seq) eqn:Eb.
  - by eexists.
  - exists s. simpl. rewrite insert_id by done. split; [done|].
    rewrite delete_id by done. by destruct s.
Qed.

Lemma mark_session_ended_acts w sid :
  acts_on sid
    (fun s s' => s' = set_ended_at (set_status s ended) (clock w (ticks w)))
    w (mark_session_ended w sid).
Proof.
  unfold acts_on, mark_session_ended.
  destruct (sessions w !! sid) as [s|]; [|done]. by eexists.
Qed.

Lemma should_generate_summary_sessions w sid a b :
  sessions (snd (should_generate_summary w sid a b)) = sessions w.
Proof.
  unfold should_generate_summary.
  destruct (sessions w !! sid); [|done].
  destruct (_ >=? _); [done|]. simpl.
  by destruct (_ && _).
Qed.

Lemma should_generate_summary_delivered w sid a b :
  delivered (snd (should_generate_summary w sid a b)) = delivered w.
Proof.
  unfold should_generate_summary.
  destruct (sessions w !! sid); [|done].
  destruct (_ >=? _); [done|]. simpl.
  by destruct (_ && _).
Qed.

Lemma should_generate_summary_recognizers w sid a b :
  recognizers (snd (should_generate_summary w sid a b)) = recognizers w.
Proof.
  unfold should_generate_summary.
  destruct (sessions w !! sid); [|done].
  destruct (_ >=? _); [done|]. simpl.
  by destruct (_ && _).
Qed.

(** *** summary generation during chunk processing *)

Lemma summary_refreshed_refl s : summary_refreshed s s.
Proof. by left. Qed.

Lemma _generate_and_broadcast_summary_acts w sid :
  acts_on sid summary_refreshed w (_generate_and_broadcast_summary w sid).
Proof.
  unfold _generate_and_broadcast_summary.
  destruct (_ || _).
  { apply acts_on_same; [apply summary_refreshed_refl | done]. }
  unfold summarizer.summarize.
  set (w1 := with_summarize_calls w _).
  set (t := get_transcript w sid).
  set (x := if negb (py.truthy t) || (py.len (py.strip t) <? 50)%Z
            then "" else lexrank t).
  replace (if negb (py.truthy t) || (py.len (py.strip t) <? 50)%Z
           then (w1, "") else (w1, lexrank t))
    with (w1, x) by (subst x; by destruct (_ || _)).
  destruct (py.truthy x) eqn:Ex.
  - unfold _broadcast_summary.
    pose proof (update_summary_acts w1 sid x) as Ha.
    unfold acts_on in *. rewrite broadcast_sessions.
    change (sessions w1) with (sessions w) in Ha.
    destruct (sessions w !! sid) as [s|]; [|done].
    destruct Ha as (s' & -> & ->). eexists. split; [done|].
    right. exists x, (clock w1 (ticks w1)). split; [|done].
    by apply truthy_true.
  - apply acts_on_same; [apply summary_refreshed_refl | done].
Qed.

Lemma _generate_and_broadcast_summary_recognizers w sid :
  recognizers (_generate_and_broadcast_summary w sid) = recognizers w.
Proof.
  unfold _generate_and_broadcast_summary.
  destruct (_ || _); [done|].
  unfold summarizer.summarize.
  destruct (_ || _); simpl.
  - done.
  - destruct (py.truthy _); [|done].
    unfold _broadcast_summary. rewrite broadcast_recognizers.
    unfold update_summary. simpl. by destruct (sessions w !! sid).
Qed.

(** *** the expected chunk *)

Lemma acts_on_sessions sid Φ w w' v v' :
  sessions v = sessions w -> sessions v' = sessions w' ->
  acts_on sid Φ w w' -> acts_on sid Φ v v'.
Proof. unfold acts_on. by intros -> ->. Qed.

Lemma transcribe_chunk_spec w sid wav :
  transcriber.transcribe_chunk w sid wav
  = (with_recognizers w (<[sid := fst (recognized w sid wav)]> (recognizers w)),
     if py.truthy (snd (recognized w sid wav))
     then Some (snd (recognized w sid wav)) else None).
Proof.
  unfold transcriber.transcribe_chunk, transcriber.get_recognizer, recognized.
  destruct (recognizers w !! sid) as [r|]; simpl;
    destruct (recognize _ wav) as [r' text]; simpl.
  - by destruct (py.truthy text).
  - unfold with_recognizers; simpl. rewrite insert_insert_eq.
    by destruct (py.truthy text).
Qed.

Lemma transcribe_and_advance_acts w sid wav :
  acts_on sid (pipeline_step (snd (recognized w sid wav)))
    w (transcribe_and_advance w sid wav).
Proof.
  unfold transcribe_and_advance. rewrite transcribe_chunk_spec.
  set (text := snd (recognized w sid wav)).
  set (w0 := with_recognizers w _).
  unfold pipeline_step.
  destruct (py.truthy text) eqn:Et.
  - destruct (should_generate_summary _ _ _ _) as [trigger w3] eqn:E3.
    pose proof (should_generate_summary_sessions
                  (_broadcast_transcript_update
                     (update_transcript w0 sid text true) sid text)
                  sid SUMMARY_WORD_THRESHOLD SUMMARY_TIME_INTERVAL) as Hs.
    rewrite E3 in Hs. simpl in Hs.
    unfold _broadcast_transcript_update in Hs. rewrite broadcast_sessions in Hs.
    eapply acts_on_compose; [| |apply increment_expected_seq_acts].
    2:{ eapply (acts_on_compose _ _ summary_refreshed);
          [| apply (acts_on_sessions _ _ w0 (update_transcript w0 sid text true));
             [done|exact Hs|apply update_transcript_acts] |].
        2:{ destruct trigger.
            - apply _generate_and_broadcast_summary_acts.
            - apply acts_on_same; [apply summary_refreshed_refl|done]. }
        intros a b c -> Hr. exact Hr. }
    simpl. intros a b c Hr ->. by exists b.
  - eapply acts_on_compose; [| |apply increment_expected_seq_acts].
    2:{ apply (acts_on_same _ (fun a b => b = a)); [done|]. done. }
    simpl. intros a b c -> ->. exists a. split; [by left|done].
Qed.

Lemma transcribe_and_advance_recognizers w sid wav :
  recognizers (transcribe_and_advance w sid wav)
  = <[sid := fst (recognized w sid wav)]> (recognizers w).
Proof.
  unfold transcribe_and_advance. rewrite transcribe_chunk_spec.
  assert (forall v, recognizers (increment_expected_seq v sid) = recognizers v)
    as Hinc.
  { intros v. unfold increment_expected_seq. by destruct (sessions v !! sid). }
  rewrite Hinc.
  destruct (py.truthy _); [|done].
  destruct (should_generate_summary _ _ _ _) as [trigger w3] eqn:E3.
  pose proof (should_generate_summary_recognizers
                (_broadcast_transcript_update
                   (update_transcript
                      (with_recognizers w
                         (<[sid := fst (recognized w sid wav)]> (recognizers w)))
                      sid (snd (recognized w sid wav)) true)
                   sid (snd (recognized w sid wav)))
                sid SUMMARY_WORD_THRESHOLD SUMMARY_TIME_INTERVAL) as Hr.
  rewrite E3 in Hr. simpl in Hr.
  unfold _broadcast_transcript_update in Hr. rewrite broadcast_recognizers in Hr.
  assert (recognizers w3 = <[sid := fst (recognized w sid wav)]> (recognizers w))
    as Hw3.
  { rewrite Hr. unfold update_transcript. simpl.
    by destruct (sessions w !! sid). }
  destruct trigger; [|done].
  by rewrite _generate_and_broadcast_summary_recognizers.
Qed.

(** The fields of a session after the pipeline pass of its expected chunk. *)
Lemma pipeline_step_fields text s s' :
  pipeline_step text s s' ->
  expected_seq s' = expected_seq s + 1
  /\ buffered_chunks s' = buffered_chunks s
  /\ transcript s'
     = (if py.truthy text then (transcript s ++ " " ++ text)%string
        else transcript s)
  /\ (summary s' = summary s \/ summary s' <> "").
Proof.
  intros (s2 & Hr & ->).
  destruct Hr as [-> | (x & t & Hx & ->)]; destruct (py.truthy text); simpl; auto.
Qed.

End pipeline_facts.

(* ===================================================================== *)
(** ** The recursion between admission and drain *)
(* ===================================================================== *)

Section sequencer_facts.
Context `{Collaborators}.
Import storage workers.

Lemma process_chunk_fuel_S fuel w sid seq c :
  process_chunk_fuel (S fuel) w sid seq c
  = if (seq <? get_expected_seq w sid)%Z then Some w
    else if (seq >? get_expected_seq w sid)%Z then
      Some (buffer_future_chunk w sid seq c)
    else
      match _convert_to_wav sid seq c with
      | None => Some w
      | Some wav =>
          _process_buffered_chunks_fuel fuel
            (transcribe_and_advance w sid wav) sid
      end.
Proof. reflexivity. Qed.

Lemma _process_buffered_chunks_fuel_S fuel w sid :
  _process_buffered_chunks_fuel (S fuel) w sid
  = match get_buffered_chunk w sid (get_expected_seq w sid) with
    | None => Some w
    | Some c =>
        match process_chunk_fuel fuel
                (remove_buffered_chunk w sid (get_expected_seq w sid))
                sid (get_expected_seq w sid) c with
        | None => None
        | Some w' => _process_buffered_chunks_fuel fuel w' sid
        end
    end.
Proof. reflexivity. Qed.

(** A property of worlds that is reflexive, transitive and holds across
    the three mutations of the sequencer holds across a whole call. *)
Lemma process_chunk_fuel_rel sid (R : World -> World -> Prop) :
  (forall w, R w w) ->
  (forall a b c, R a b -> R b c -> R a c) ->
  (forall w seq c, R w (buffer_future_chunk w sid seq c)) ->
  (forall w seq, R w (remove_buffered_chunk w sid seq)) ->
  (forall w wav, R w (transcribe_and_advance w sid wav)) ->
  forall fuel,
    (forall w seq c w',
        process_chunk_fuel fuel w sid seq c = Some w' -> R w w')
    /\ (forall w w', _process_buffered_chunks_fuel fuel w sid = Some w' -> R w w').
Proof.
  intros Hrefl Htrans Hbuf Hrem Htaa.
  induction fuel as [|fuel [IHp IHd]]; [by split|].
  split.
  - intros w seq c w'. rewrite process_chunk_fuel_S.
    destruct (seq <? _)%Z; [intros [= <-]; apply Hrefl|].
    destruct (seq >? _)%Z; [intros [= <-]; apply Hbuf|].
    destruct (_convert_to_wav sid seq c) as [wav|];
      [|intros [= <-]; apply Hrefl].
    intros Hd. eapply Htrans; [apply Htaa|]. by apply IHd.
  - intros w w'. rewrite _process_buffered_chunks_fuel_S.
    destruct (get_buffered_chunk _ _ _) as [c|]; [|intros [= <-]; apply Hrefl].
    destruct (process_chunk_fuel _ _ _ _ _) as [w1|] eqn:E1; [|done].
    intros Hd. eapply Htrans; [apply Hrem|].
    eapply Htrans; [by eapply IHp|]. by apply IHd.
Qed.

(** *** termination *)

Lemma buffered_count_acts sid (Φ : Session -> Session -> Prop) w w' :
  acts_on sid Φ w w' ->
  (forall a b, Φ a b -> buffered_chunks b = buffered_chunks a) ->
  buffered_count w' sid = buffered_count w sid.
Proof.
  unfold acts_on, buffered_count. intros Ha Hb.
  destruct (sessions w !! sid) as [s|] eqn:Es.
  - destruct Ha as (s' & -> & HΦ). rewrite lookup_insert_eq.
    by rewrite (Hb _ _ HΦ).
  - by rewrite Ha, Es.
Qed.

Lemma get_expected_seq_acts sid (Φ : Session -> Session -> Prop) w w' :
  acts_on sid Φ w w' ->
  (forall a b, Φ a b -> expected_seq b = expected_seq a) ->
  get_expected_seq w' sid = get_expected_seq w sid.
Proof.
  unfold acts_on, get_expected_seq. intros Ha Hb.
  destruct (sessions w !! sid) as [s|] eqn:Es.
  - destruct Ha as (s' & -> & HΦ). rewrite lookup_insert_eq.
    by rewrite (Hb _ _ HΦ).
  - by rewrite Ha, Es.
Qed.

Lemma buffered_count_transcribe_and_advance w sid wav :
  buffered_count (transcribe_and_advance w sid wav) sid = buffered_count w sid.
Proof.
  eapply buffered_count_acts; [apply transcribe_and_advance_acts|].
  intros a b Hs. by apply pipeline_step_fields in Hs as (_ & ? & _).
Qed.

Lemma buffered_count_remove w sid seq c :
  get_buffered_chunk w sid seq = Some c ->
  S (buffered_count (remove_buffered_chunk w sid seq) sid) = buffered_count w sid.
Proof.
  unfold get_buffered_chunk, remove_buffered_chunk, buffered_count.
  destruct (sessions w !! sid) as [s|] eqn:Es; [|done].
  intros Hc. rewrite Hc. simpl. rewrite lookup_insert_eq. simpl.
  rewrite map_size_delete, Hc.
  assert (size (buffered_chunks s) <> 0)%nat; [|lia].
  intros Hz. apply map_size_empty_inv in Hz. by rewrite Hz in Hc.
Qed.

Lemma get_expected_seq_remove w sid seq :
  get_expected_seq (remove_buffered_chunk w sid seq) sid = get_expected_seq w sid.
Proof.
  eapply get_expected_seq_acts; [apply remove_buffered_chunk_acts|].
  by intros a b ->.
Qed.

(** With [2 * buffered + 2] units of fuel (one less for the drain) the
    recursion always comes back, and a call that does not buffer its
    chunk never makes the buffer larger. *)
Lemma fuel_suffices sid fuel :
  (forall w seq c,
      (2 * buffered_count w sid + 2 <= fuel)%nat ->
      exists w', process_chunk_fuel fuel w sid seq c = Some w'
                 /\ (seq <= get_expected_seq w sid ->
                     (buffered_count w' sid <= buffered_count w sid)%nat))
  /\ (forall w,
      (2 * buffered_count w sid + 1 <= fuel)%nat ->
      exists w', _process_buffered_chunks_fuel fuel w sid = Some w'
                 /\ (buffered_count w' sid <= buffered_count w sid)%nat).
Proof.
  induction fuel as [|fuel [IHp IHd]]; [split; intros; lia|].
  split.
  - intros w seq c Hf. rewrite process_chunk_fuel_S.
    destruct (seq <? _)%Z eqn:E1; [by eexists|].
    destruct (seq >? _)%Z eqn:E2; [eexists; split; [done|lia]|].
    destruct (_convert_to_wav sid seq c) as [wav|]; [|by eexists].
    destruct (IHd (transcribe_and_advance w sid wav)) as (w' & Hw' & Hle).
    { rewrite buffered_count_transcribe_and_advance. lia. }
    exists w'. split; [done|]. intros _.
    by rewrite buffered_count_transcribe_and_advance in Hle.
  - intros w Hf. rewrite _process_buffered_chunks_fuel_S.
    destruct (get_buffered_chunk _ _ _) as [c|] eqn:Ec; [|by eexists].
    pose proof (buffered_count_remove _ _ _ _ Ec) as Hrm.
    destruct (IHp (remove_buffered_chunk w sid (get_expected_seq w sid))
                  (get_expected_seq w sid) c) as (w1 & -> & Hle1); [lia|].
    rewrite get_expected_seq_remove in Hle1.
    destruct (IHd w1) as (w2 & -> & Hle2); [lia|].
    exists w2. split; [done|]. lia.
Qed.

(** [process_chunk] returns: the fuel it is given is never used up. *)
Lemma process_chunk_returns w sid seq c :
  process_chunk_fuel (enough_fuel w sid) w sid seq c
  = Some (process_chunk w sid seq c).
Proof.
  unfold process_chunk.
  destruct (proj1 (fuel_suffices sid (enough_fuel w sid)) w seq c)
    as (w' & -> & _); [unfold enough_fuel; lia|done].
Qed.

Lemma _process_buffered_chunks_returns w sid :
  _process_buffered_chunks_fuel (enough_fuel w sid) w sid
  = Some (_process_buffered_chunks w sid).
Proof.
  unfold _process_buffered_chunks.
  destruct (proj2 (fuel_suffices sid (enough_fuel w sid)) w)
    as (w' & -> & _); [unfold enough_fuel; lia|done].
Qed.

(** More fuel never changes a result. *)
Lemma fuel_monotone sid fuel :
  (forall w seq c w' fuel',
      process_chunk_fuel fuel w sid seq c = Some w' -> (fuel <= fuel')%nat ->
      process_chunk_fuel fuel' w sid seq c = Some w')
  /\ (forall w w' fuel',
      _process_buffered_chunks_fuel fuel w sid = Some w' -> (fuel <= fuel')%nat ->
      _process_buffered_chunks_fuel fuel' w sid = Some w').
Proof.
  induction fuel as [|fuel [IHp IHd]]; [by split|].
  split.
  - intros w seq c w' [|fuel'] Hr Hle; [lia|].
    rewrite process_chunk_fuel_S in *.
    destruct (seq <? _)%Z; [done|]. destruct (seq >? _)%Z; [done|].
    destruct (_convert_to_wav sid seq c); [|done].
    apply IHd; [done|lia].
  - intros w w' [|fuel'] Hr Hle; [lia|].
    rewrite _process_buffered_chunks_fuel_S in *.
    destruct (get_buffered_chunk _ _ _) as [c|]; [|done].
    destruct (process_chunk_fuel fuel _ _ _ _) as [w1|] eqn:E1; [|done].
    rewrite (IHp _ _ _ _ fuel' E1) by lia.
    apply IHd; [done|lia].
Qed.

Lemma enough_fuel_S w sid :
  enough_fuel w sid = S (2 * buffered_count w sid + 1).
Proof. unfold enough_fuel. lia. Qed.

(** The three admission cases of the total function. *)
Lemma process_chunk_stale w sid seq c :
  seq < get_expected_seq w sid -> process_chunk w sid seq c = w.
Proof.
  intros Hlt. pose proof (process_chunk_returns w sid seq c) as Hr.
  rewrite enough_fuel_S, process_chunk_fuel_S in Hr.
  apply Z.ltb_lt in Hlt. rewrite Hlt in Hr. by injection Hr.
Qed.

Lemma process_chunk_future w sid seq c :
  get_expected_seq w sid < seq ->
  process_chunk w sid seq c = buffer_future_chunk w sid seq c.
Proof.
  intros Hlt. pose proof (process_chunk_returns w sid seq c) as Hr.
  rewrite enough_fuel_S, process_chunk_fuel_S in Hr.
  assert ((seq <? get_expected_seq w sid)%Z = false) as E1 by lia.
  assert ((seq >? get_expected_seq w sid)%Z = true) as E2 by lia.
  rewrite E1, E2 in Hr. by injection Hr.
Qed.

Lemma process_chunk_conversion_failed w sid c :
  _convert_to_wav sid (get_expected_seq w sid) c = None ->
  process_chunk w sid (get_expected_seq w sid) c = w.
Proof.
  intros Hc.
  pose proof (process_chunk_returns w sid (get_expected_seq w sid) c) as Hr.
  rewrite enough_fuel_S, process_chunk_fuel_S in Hr.
  rewrite Z.ltb_irrefl in Hr.
  assert ((get_expected_seq w sid >? get_expected_seq w sid)%Z = false)
    as Hgt by lia.
  rewrite Hgt, Hc in Hr. by injection Hr.
Qed.

Lemma process_chunk_rel sid (R : World -> World -> Prop) :
  (forall w, R w w) ->
  (forall a b c, R a b -> R b c -> R a c) ->
  (forall w seq c, R w (buffer_future_chunk w sid seq c)) ->
  (forall w seq, R w (remove_buffered_chunk w sid seq)) ->
  (forall w wav, R w (transcribe_and_advance w sid wav)) ->
  forall w seq c, R w (process_chunk w sid seq c).
Proof.
  intros Hrefl Htrans Hbuf Hrem Htaa w seq c.
  eapply (proj1 (process_chunk_fuel_rel sid R Hrefl Htrans Hbuf Hrem Htaa _)).
  apply process_chunk_returns.
Qed.

End sequencer_facts.

(* ===================================================================== *)
(** ** What the storage calls leave alone *)
(* ===================================================================== *)

Section frame_facts.
Context `{Collaborators}.
Import storage workers.

Lemma env_kept_refl w : env_kept w w.
Proof. by repeat split. Qed.

Lemma update_transcript_env w sid text b :
  env_kept w (update_transcript w sid text b).
Proof.
  unfold update_transcript.
  destruct (sessions w !! sid); by repeat split.
Qed.

Lemma update_summary_env w sid x : env_kept w (update_summary w sid x).
Proof.
  unfold update_summary.
  destruct (sessions w !! sid); by repeat split.
Qed.

Lemma mark_session_ended_env w sid : env_kept w (mark_session_ended w sid).
Proof.
  unfold mark_session_ended.
  destruct (sessions w !! sid); by repeat split.
Qed.

Lemma increment_expected_seq_env w sid :
  env_kept w (increment_expected_seq w sid).
Proof.
  unfold increment_expected_seq.
  destruct (sessions w !! sid); by repeat split.
Qed.

Lemma buffer_future_chunk_env w sid seq c :
  env_kept w (buffer_future_chunk w sid seq c).
Proof.
  unfold buffer_future_chunk.
  destruct (sessions w !! sid); by repeat split.
Qed.

Lemma remove_buffered_chunk_env w sid seq :
  env_kept w (remove_buffered_chunk w sid seq).
Proof.
  unfold remove_buffered_chunk.
  destruct (sessions w !! sid) as [s|]; [|by repeat split].
  destruct (buffered_chunks s !! seq); by repeat split.
Qed.

Lemma should_generate_summary_env w sid a b :
  env_kept w (snd (should_generate_summary w sid a b)).
Proof.
  unfold should_generate_summary.
  destruct (sessions w !! sid); [|by repeat split].
  destruct (_ >=? _); [by repeat split|]. simpl.
  destruct (_ && _); by repeat split.
Qed.

Lemma transcriber_finalize_session_sessions w sid :
  sessions (fst (transcriber.finalize_session w sid)) = sessions w.
Proof.
  unfold transcriber.finalize_session.
  by destruct (recognizers w !! sid).
Qed.

Lemma transcriber_finalize_session_traces w sid :
  let w' := fst (transcriber.finalize_session w sid) in
  delivered w' = delivered w /\ summarize_calls w' = summarize_calls w /\
  active_connections w' = active_connections w.
Proof.
  unfold transcriber.finalize_session.
  by destruct (recognizers w !! sid).
Qed.

End frame_facts.

(* ===================================================================== *)
(** ** Finalisation *)
(* ===================================================================== *)

Section finalize_facts.
Context `{Collaborators}.
Import storage workers.

Lemma summarize_spec w t :
  summarizer.summarize w t
  = (with_summarize_calls w (summarize_calls w ++ [t]), summary_of t).
Proof.
  unfold summarizer.summarize, summary_of. by destruct (_ || _).
Qed.

Lemma finalize_session_unfold w sid :
  finalize_session w sid
  = let w4 := mark_session_ended (after_final_summary w sid) sid in
    WebSocketManager.broadcast w4
      (session_ended sid (get_transcript w4 sid) (get_summary w4 sid)).
Proof.
  unfold finalize_session, after_final_summary, after_flush, final_summary_due.
  destruct (transcriber.finalize_session w sid) as [w1 [ft|]]; simpl;
    match goal with
    | |- context [if ?g then _ else _] => destruct g
    end; try reflexivity; by rewrite summarize_spec.
Qed.

Lemma after_flush_acts w sid :
  acts_on sid (fun s s' => s' = flushed w sid s) w (after_flush w sid).
Proof.
  unfold after_flush, flushed, flush_text.
  pose proof (transcriber_finalize_session_sessions w sid) as Hs.
  destruct (transcriber.finalize_session w sid) as [w1 [ft|]]; simpl in *.
  - eapply acts_on_sessions; [symmetry; exact Hs|reflexivity|].
    apply update_transcript_acts.
  - by apply acts_on_same.
Qed.

Lemma after_final_summary_acts w sid :
  acts_on sid
    (fun s s' => exists t_sum,
       s' = if final_summary_due (transcript (flushed w sid s))
            then set_last_summary_time
                   (set_summary (flushed w sid s)
                      (summary_of (transcript (flushed w sid s)))) t_sum
            else flushed w sid s)
    w (after_final_summary w sid).
Proof.
  pose proof (after_flush_acts w sid) as Hf.
  unfold after_final_summary.
  set (w2 := after_flush w sid) in *.
  unfold acts_on in *.
  destruct (sessions w !! sid) as [s|] eqn:Es.
  - destruct Hf as (s1 & E2 & ->).
    assert (sessions w2 !! sid = Some (flushed w sid s)) as E2'
      by (by rewrite E2, lookup_insert_eq).
    unfold get_transcript. rewrite E2'.
    destruct (final_summary_due _).
    + unfold _broadcast_summary. rewrite broadcast_sessions.
      unfold update_summary. simpl. rewrite E2'. simpl.
      eexists. split; [by rewrite E2, insert_insert_eq|]. by eexists.
    + eexists. split; [done|]. by exists 0%Q.
  - assert (sessions w2 !! sid = None) as E2' by (by rewrite Hf).
    unfold get_transcript. rewrite E2'. simpl. done.
Qed.

Lemma finalize_session_acts w sid :
  acts_on sid (finalized w sid) w (finalize_session w sid).
Proof.
  rewrite finalize_session_unfold. simpl.
  eapply acts_on_sessions; [reflexivity|apply broadcast_sessions|].
  eapply acts_on_compose;
    [|apply after_final_summary_acts|apply mark_session_ended_acts].
  simpl. intros a b c [t_sum ->] ->. by do 2 eexists.
Qed.

Lemma finalized_fields w sid s s' :
  finalized w sid s s' ->
  expected_seq s' = expected_seq s
  /\ buffered_chunks s' = buffered_chunks s
  /\ transcript s' = transcript (flushed w sid s)
  /\ summary s'
     = (if final_summary_due (transcript (flushed w sid s))
        then summary_of (transcript (flushed w sid s)) else summary s)
  /\ status s' = ended.
Proof.
  intros (t_sum & t_end & ->).
  unfold flushed. destruct (flush_text w sid);
    destruct (final_summary_due _); simpl; auto.
Qed.

End finalize_facts.

(* ===================================================================== *)
(** ** The buffer stays ahead of the expected sequence number *)
(* ===================================================================== *)

Section buffer_invariant.
Context `{Collaborators}.
Import storage workers.

Lemma acts_on_lookup_inv sid Φ w w' s' :
  acts_on sid Φ w w' -> sessions w' !! sid = Some s' ->
  exists s, sessions w !! sid = Some s /\ Φ s s'.
Proof.
  unfold acts_on. intros Ha Es'.
  destruct (sessions w !! sid) as [s|] eqn:Es.
  - destruct Ha as (s1 & E1 & HΦ). rewrite E1, lookup_insert_eq in Es'.
    injection Es' as <-. by exists s.
  - rewrite Ha, Es in Es'. done.
Qed.

(** A change that keeps [expected_seq] and the buffer keeps the invariant. *)
Lemma ahead_at_kept sid (Φ : Session -> Session -> Prop) w w' :
  acts_on sid Φ w w' ->
  (forall a b, Φ a b -> expected_seq b = expected_seq a
                        /\ buffered_chunks b = buffered_chunks a) ->
  ahead_at w sid -> ahead_at w' sid.
Proof.
  intros Ha HΦ Hw s' Es'.
  destruct (acts_on_lookup_inv _ _ _ _ _ Ha Es') as (s & Es & Hs).
  destruct (HΦ _ _ Hs) as [He Hb]. intros k c. rewrite Hb, He.
  by apply Hw.
Qed.

Lemma ahead_at_buffer_future_chunk w sid seq c :
  get_expected_seq w sid < seq ->
  ahead_at w sid -> ahead_at (buffer_future_chunk w sid seq c) sid.
Proof.
  intros Hlt Hw s' Es'.
  destruct (acts_on_lookup_inv _ _ _ _ _ (buffer_future_chunk_acts w sid seq c) Es')
    as (s & Es & ->).
  unfold get_expected_seq in Hlt. rewrite Es in Hlt.
  intros k c'. simpl. rewrite lookup_insert.
  case_decide; [intros _; by subst|]. by apply Hw.
Qed.

Lemma not_behind_at_transcribe_and_advance w sid wav :
  ahead_at w sid -> not_behind_at (transcribe_and_advance w sid wav) sid.
Proof.
  intros Hw s' Es'.
  destruct (acts_on_lookup_inv _ _ _ _ _ (transcribe_and_advance_acts w sid wav) Es')
    as (s & Es & Hs).
  apply pipeline_step_fields in Hs as (He & Hb & _).
  intros k c. rewrite Hb, He. intros Hk.
  specialize (Hw s Es k c Hk). lia.
Qed.

Lemma ahead_at_remove_expected w sid :
  not_behind_at w sid ->
  ahead_at (remove_buffered_chunk w sid (get_expected_seq w sid)) sid.
Proof.
  intros Hw s' Es'.
  destruct (acts_on_lookup_inv _ _ _ _ _
              (remove_buffered_chunk_acts w sid (get_expected_seq w sid)) Es')
    as (s & Es & ->).
  unfold get_expected_seq. rewrite Es.
  intros k c. simpl. rewrite lookup_delete.
  case_decide; [done|]. intros Hk.
  specialize (Hw s Es k c Hk). lia.
Qed.

Lemma ahead_at_nothing_expected w sid :
  not_behind_at w sid ->
  get_buffered_chunk w sid (get_expected_seq w sid) = None ->
  ahead_at w sid.
Proof.
  intros Hw Hn s Es k c Hk.
  unfold get_buffered_chunk, get_expected_seq in Hn. rewrite Es in Hn.
  specialize (Hw s Es k c Hk).
  assert (k <> expected_seq s) by (intros ->; congruence). lia.
Qed.

Lemma ahead_not_behind w sid : ahead_at w sid -> not_behind_at w sid.
Proof. intros Hw s Es k c Hk. specialize (Hw s Es k c Hk). lia. Qed.

Lemma sequencer_keeps_ahead sid fuel :
  (forall w seq c w',
      ahead_at w sid -> process_chunk_fuel fuel w sid seq c = Some w' ->
      ahead_at w' sid)
  /\ (forall w w',
      not_behind_at w sid -> _process_buffered_chunks_fuel fuel w sid = Some w' ->
      ahead_at w' sid).
Proof.
  induction fuel as [|fuel [IHp IHd]]; [by split|].
  split.
  - intros w seq c w' Hw. rewrite process_chunk_fuel_S.
    destruct (seq <? _)%Z eqn:E1; [by intros [= <-]|].
    destruct (seq >? _)%Z eqn:E2.
    { intros [= <-]. apply ahead_at_buffer_future_chunk; [lia|done]. }
    destruct (_convert_to_wav sid seq c) as [wav|]; [|by intros [= <-]].
    apply IHd. by apply not_behind_at_transcribe_and_advance.
  - intros w w' Hw. rewrite _process_buffered_chunks_fuel_S.
    destruct (get_buffered_chunk _ _ _) as [c|] eqn:Ec.
    + destruct (process_chunk_fuel _ _ _ _ _) as [w1|] eqn:E1; [|done].
      intros Hd. apply (IHd w1); [|done].
      apply ahead_not_behind. eapply IHp; [|exact E1].
      by apply ahead_at_remove_expected.
    + intros [= <-]. by apply ahead_at_nothing_expected.
Qed.

(** The sessions a call of [process_chunk] is not about are untouched. *)
Lemma process_chunk_other_sessions w sid seq c sid' :
  sid' <> sid ->
  sessions (process_chunk w sid seq c) !! sid' = sessions w !! sid'.
Proof.
  intros Hne.
  apply (process_chunk_rel sid
           (fun a b => sessions b !! sid' = sessions a !! sid')).
  - done.
  - intros a b d Hab Hbd. by rewrite Hbd.
  - intros v k x. eapply acts_on_other; [apply buffer_future_chunk_acts|done].
  - intros v k. eapply acts_on_other; [apply remove_buffered_chunk_acts|done].
  - intros v wav.
    eapply acts_on_other; [apply transcribe_and_advance_acts|done].
Qed.

Lemma sequencer_invariant_process_chunk w sid seq c :
  sequencer_invariant w -> sequencer_invariant (process_chunk w sid seq c).
Proof.
  intros Hw sid'. destruct (decide (sid' = sid)) as [->|Hne].
  - eapply (proj1 (sequencer_keeps_ahead sid _)); [apply Hw|].
    apply process_chunk_returns.
  - intros s. rewrite process_chunk_other_sessions by done. apply Hw.
Qed.

Lemma sequencer_invariant_acts sid (Φ : Session -> Session -> Prop) w w' :
  acts_on sid Φ w w' ->
  (forall a b, Φ a b -> expected_seq b = expected_seq a
                        /\ buffered_chunks b = buffered_chunks a) ->
  sequencer_invariant w -> sequencer_invariant w'.
Proof.
  intros Ha HΦ Hw sid'. destruct (decide (sid' = sid)) as [->|Hne].
  - eapply ahead_at_kept; [exact Ha|exact HΦ|apply Hw].
  - intros s. rewrite (acts_on_other _ _ _ _ _ Ha Hne). apply Hw.
Qed.

Lemma sequencer_invariant_serve w r :
  sequencer_invariant w -> sequencer_invariant (main.serve w r).
Proof.
  intros Hw. destruct r as [sid|sid seq chunk|sid|sid|c|c]; simpl.
  - (* create *)
    intros sid' s. unfold create_session, store. simpl.
    rewrite lookup_insert. case_decide.
    + intros [= <-]. intros k c. simpl. by rewrite lookup_empty.
    + apply Hw.
  - (* upload *)
    unfold main.upload_chunk.
    destruct (_ >? _)%Z; [done|]. case_decide; [|done].
    unfold save_chunk. case_decide; [|done]. simpl.
    apply sequencer_invariant_process_chunk.
    destruct (sessions w !! sid) as [s|] eqn:Es; [|done].
    intros sid' s'. unfold store. simpl. rewrite lookup_insert.
    case_decide; [|apply Hw]. subst sid'. intros [= <-]. simpl.
    intros k c. simpl. by apply (Hw sid s Es).
  - (* end *)
    eapply sequencer_invariant_acts; [apply finalize_session_acts| |done].
    intros a b Hf. by apply finalized_fields in Hf as (? & ? & _).
  - (* delete *)
    intros sid' s. unfold cleanup_session. simpl.
    rewrite lookup_delete. case_decide; [done|]. apply Hw.
  - done.
  - unfold WebSocketManager.disconnect. by case_decide.
Qed.

(** C7. In every world the application can reach by serving requests,
    each one run to completion, the buffer of every session holds only
    keys strictly greater than that session's [expected_seq]. *)
Theorem buffered_keys_ahead_of_expected (w : World) (sid : string)
    (s : Session) (k : Z) (c : Chunk) :
  main.reachable w ->
  sessions w !! sid = Some s ->
  buffered_chunks s !! k = Some c ->
  expected_seq s < k.
Proof.
  intros Hr Es Hk.
  assert (sequencer_invariant w) as Hi; [|by apply (Hi sid s Es k c)].
  clear sid s k c Es Hk.
  induction Hr as [dirs clk|w r Hr IH].
  - intros sid s. unfold main.startup. simpl. by rewrite lookup_empty.
  - by apply sequencer_invariant_serve.
Qed.

End buffer_invariant.

(* ===================================================================== *)
(** ** Arrival order does not matter *)
(* ===================================================================== *)

Section ordering.
Context `{Collaborators}.
Import storage workers.


Section one_session.
Variable sid : string.
Variable cs : list Chunk.
Variable core0 : string * option Recognizer.
Hypothesis convertible :
  forall i c, cs !! i = Some c -> is_Some (ffmpeg sid (Z.of_nat i) c).










End one_session.

End ordering.

Section ordering_theorem.
Context `{Collaborators}.
Import storage workers.






End ordering_theorem.

(* ===================================================================== *)
(** ** Admission, summary policy, summaries during chunk processing *)
(* ===================================================================== *)

Section admission_and_policy.
Context `{Collaborators}.
Import storage workers.

(** C3. For an existing session, an arrival below [expected_seq] leaves
    the whole world as it was, and an arrival above [expected_seq] only
    writes the chunk under its sequence number into the buffer of the
    session, replacing whatever was stored under that key. *)
Theorem admission_stale_and_future (w : World) (sid : string) (s : Session)
    (c : Chunk) :
  sessions w !! sid = Some s ->
  (forall seq, seq < expected_seq s -> process_chunk w sid seq c = w)
  /\ (forall seq, expected_seq s < seq ->
        process_chunk w sid seq c
        = store w sid (set_buffered_chunks s (<[seq := c]> (buffered_chunks s)))).
Proof.
  intros Es. split; intros seq Hseq.
  - apply process_chunk_stale. unfold get_expected_seq. by rewrite Es.
  - rewrite process_chunk_future
      by (unfold get_expected_seq; by rewrite Es).
    unfold buffer_future_chunk. by rewrite Es.
Qed.

(** C4. For an existing session, with the configured threshold of 200
    words and interval of 30 seconds, the decision is [true] exactly when
    the word count is at least 200, or at least 30 seconds have passed
    since the last summary and the word count is above 50. *)
Theorem summary_policy (w : World) (sid : string) (s : Session) :
  sessions w !! sid = Some s ->
  let elapsed := (clock w (ticks w) - last_summary_time s)%Q in
  let trigger :=
    fst (should_generate_summary w sid
           SUMMARY_WORD_THRESHOLD SUMMARY_TIME_INTERVAL) in
  (trigger = true <->
     200 <= word_count s \/ ((30 <= elapsed)%Q /\ 50 < word_count s))
  /\ (200 <= word_count s -> trigger = true)
  /\ (word_count s = 60 -> (trigger = true <-> (30 <= elapsed)%Q)).
Proof.
  intros Es. simpl.
  assert (fst (should_generate_summary w sid
                 SUMMARY_WORD_THRESHOLD SUMMARY_TIME_INTERVAL) = true
          <-> 200 <= word_count s
              \/ ((30 <= clock w (ticks w) - last_summary_time s)%Q
                  /\ 50 < word_count s)) as Hiff.
  { unfold should_generate_summary, SUMMARY_WORD_THRESHOLD,
      SUMMARY_TIME_INTERVAL. rewrite Es.
    destruct (word_count s >=? 200)%Z eqn:Ew; simpl.
    - split; [intros _; left; lia|done].
    - destruct (Qle_bool _ _) eqn:Eq; destruct (word_count s >? 50)%Z eqn:E50;
        simpl; split; try done.
      + intros _. right. split; [by apply Qle_bool_iff in Eq|lia].
      + intros [?|[_ ?]]; lia.
      + intros [?|[Hq _]]; [lia|]. apply Qle_bool_iff in Hq.
        change (inject_Z 30) with 30%Q in Eq. congruence.
      + intros [?|[_ ?]]; lia. }
  split; [exact Hiff|]. split.
  - intros Hw. apply Hiff. by left.
  - intros H60. rewrite Hiff. split.
    + intros [?|[Hq _]]; [lia|done].
    + intros Hq. right. split; [done|lia].
Qed.

(** The expected chunk of an existing session moves [expected_seq] by one
    once it is converted, whatever the recogniser and the summariser do. *)
Lemma converted_chunk_advances w sid s wav :
  sessions w !! sid = Some s ->
  exists s', sessions (transcribe_and_advance w sid wav) !! sid = Some s'
             /\ expected_seq s' = expected_seq s + 1.
Proof.
  intros Es.
  destruct (acts_on_lookup _ _ _ _ _ (transcribe_and_advance_acts w sid wav) Es)
    as (s' & Es' & Hs).
  apply pipeline_step_fields in Hs as (He & _).
  by exists s'.
Qed.

(** *** Summaries while chunks are processed *)

Lemma summaries_kept_refl w : summaries_kept w w.
Proof.
  split.
  - intros sid s Es. exists s. auto.
  - exists []. split; [by rewrite app_nil_r|]. intros c sid x Hin.
    by apply not_elem_of_nil in Hin.
Qed.

Lemma summaries_kept_trans a b c :
  summaries_kept a b -> summaries_kept b c -> summaries_kept a c.
Proof.
  intros [Hs1 (n1 & Hd1 & Hn1)] [Hs2 (n2 & Hd2 & Hn2)]. split.
  - intros sid s Es. destruct (Hs1 sid s Es) as (s1 & Es1 & H1).
    destruct (Hs2 sid s1 Es1) as (s2 & Es2 & H2).
    exists s2. split; [done|]. destruct H2 as [H2|H2]; [|by right].
    rewrite H2. exact H1.
  - exists (n1 ++ n2). split; [by rewrite Hd2, Hd1, app_assoc|].
    intros k sid x [Hin|Hin]%elem_of_app; [by eapply Hn1|by eapply Hn2].
Qed.

Lemma summaries_kept_acts sid (Φ : Session -> Session -> Prop) w w' :
  acts_on sid Φ w w' ->
  (forall a b, Φ a b -> summary b = summary a \/ summary b <> "") ->
  (exists new, delivered w' = delivered w ++ new /\ summaries_nonempty new) ->
  summaries_kept w w'.
Proof.
  intros Ha HΦ Hd. split; [|done].
  intros sid' s Es. destruct (decide (sid' = sid)) as [->|Hne].
  - destruct (acts_on_lookup _ _ _ _ _ Ha Es) as (s' & Es' & Hs).
    exists s'. split; [done|]. by apply HΦ.
  - exists s. split; [|by left]. by rewrite (acts_on_other _ _ _ _ _ Ha Hne).
Qed.

Lemma delivered_same_nonempty (w w' : World) :
  delivered w' = delivered w ->
  exists new, delivered w' = delivered w ++ new /\ summaries_nonempty new.
Proof.
  intros ->. exists []. split; [by rewrite app_nil_r|].
  intros c sid x Hin. by apply not_elem_of_nil in Hin.
Qed.

Lemma broadcast_nonempty w m :
  (forall sid x, m = summary_msg sid x -> x <> "") ->
  exists new, delivered (WebSocketManager.broadcast w m) = delivered w ++ new
              /\ summaries_nonempty new.
Proof.
  intros Hm. rewrite broadcast_delivered. eexists. split; [done|].
  intros c sid x (c' & Heq & _)%list_elem_of_fmap.
  injection Heq as _ Hmsg. by eapply Hm.
Qed.

Lemma _generate_and_broadcast_summary_delivered w sid :
  exists new, delivered (_generate_and_broadcast_summary w sid)
              = delivered w ++ new
              /\ summaries_nonempty new.
Proof.
  unfold _generate_and_broadcast_summary.
  destruct (_ || _); [by apply delivered_same_nonempty|].
  rewrite summarize_spec.
  destruct (py.truthy _) eqn:Ex; [|by apply delivered_same_nonempty].
  unfold _broadcast_summary.
  edestruct (broadcast_nonempty
               (update_summary
                  (with_summarize_calls w
                     (summarize_calls w ++ [get_transcript w sid]))
                  sid (summary_of (get_transcript w sid)))
               (summary_msg sid (summary_of (get_transcript w sid))))
    as (new & Hd & Hn).
  { intros sid' x [= _ <-]. by apply truthy_true. }
  exists new. split; [|done]. rewrite Hd. f_equal.
  by destruct (update_summary_env
                 (with_summarize_calls w
                    (summarize_calls w ++ [get_transcript w sid]))
                 sid (summary_of (get_transcript w sid)))
    as (_ & _ & -> & _).
Qed.

Lemma transcribe_and_advance_delivered w sid wav :
  exists new, delivered (transcribe_and_advance w sid wav) = delivered w ++ new
              /\ summaries_nonempty new.
Proof.
  unfold transcribe_and_advance. rewrite transcribe_chunk_spec.
  set (text := snd (recognized w sid wav)).
  set (w0 := with_recognizers w _).
  assert (forall v, delivered (increment_expected_seq v sid) = delivered v)
    as Hinc.
  { intros v. by destruct (increment_expected_seq_env v sid) as (_ & _ & -> & _). }
  rewrite Hinc.
  destruct (py.truthy text); [|by apply delivered_same_nonempty].
  destruct (should_generate_summary _ _ _ _) as [trigger w3] eqn:E3.
  pose proof (should_generate_summary_delivered
                (_broadcast_transcript_update
                   (update_transcript w0 sid text true) sid text)
                sid SUMMARY_WORD_THRESHOLD SUMMARY_TIME_INTERVAL) as Hd3.
  rewrite E3 in Hd3. simpl in Hd3.
  assert (exists new, delivered w3 = delivered w ++ new
                      /\ summaries_nonempty new) as (n1 & Hd1 & Hn1).
  { rewrite Hd3. unfold _broadcast_transcript_update.
    edestruct (broadcast_nonempty (update_transcript w0 sid text true))
      as (new & Hd & Hn); [|exists new; split; [|exact Hn]].
    2:{ rewrite Hd. f_equal.
        by destruct (update_transcript_env w0 sid text true)
          as (_ & _ & -> & _). }
    intros sid' x Heq. discriminate Heq. }
  destruct trigger.
  - destruct (_generate_and_broadcast_summary_delivered w3 sid)
      as (n2 & Hd2 & Hn2).
    exists (n1 ++ n2). split; [by rewrite Hd2, Hd1, app_assoc|].
    intros k sid' x [Hin|Hin]%elem_of_app; [by eapply Hn1|by eapply Hn2].
  - by exists n1.
Qed.

Lemma summaries_kept_process_chunk w sid seq c :
  summaries_kept w (process_chunk w sid seq c).
Proof.
  apply (process_chunk_rel sid summaries_kept).
  - apply summaries_kept_refl.
  - apply summaries_kept_trans.
  - intros v k x. eapply summaries_kept_acts;
      [apply buffer_future_chunk_acts|by intros a b ->; left|].
    apply delivered_same_nonempty.
    by destruct (buffer_future_chunk_env v sid k x) as (_ & _ & -> & _).
  - intros v k. eapply summaries_kept_acts;
      [apply remove_buffered_chunk_acts|by intros a b ->; left|].
    apply delivered_same_nonempty.
    by destruct (remove_buffered_chunk_env v sid k) as (_ & _ & -> & _).
  - intros v wav. eapply summaries_kept_acts;
      [apply transcribe_and_advance_acts| |
       apply transcribe_and_advance_delivered].
    intros a b Hs. by apply pipeline_step_fields in Hs as (_ & _ & _ & ?).
Qed.

(** C9. While chunks are processed a stored summary is only ever replaced
    by a non-empty text: the summary step leaves the world alone when the
    transcript has fewer than 30 words, what it stores is non-empty, and
    over a whole [process_chunk] every session keeps its summary or gets a
    non-empty one, so a non-empty summary stays non-empty, and every
    summary message that is sent carries a non-empty summary. *)
Theorem chunk_processing_keeps_summary (w : World) (sid : string) (seq : Z)
    (c : Chunk) (sid' : string) (s : Session) :
  sessions w !! sid' = Some s ->
  (py.count_words (get_transcript w sid) < 30 ->
     _generate_and_broadcast_summary w sid = w)
  /\ (exists s1, sessions (_generate_and_broadcast_summary w sid) !! sid'
                 = Some s1
                 /\ (summary s1 = summary s \/ summary s1 <> ""))
  /\ (exists s', sessions (process_chunk w sid seq c) !! sid' = Some s'
                 /\ (summary s' = summary s \/ summary s' <> "")
                 /\ (summary s <> "" -> summary s' <> ""))
  /\ (exists new, delivered (process_chunk w sid seq c) = delivered w ++ new
                  /\ forall k sid0 x, (k, summary_msg sid0 x) ∈ new -> x <> "").
Proof.
  intros Es. split; [|split; [|split]].
  - intros Hlt. unfold _generate_and_broadcast_summary.
    assert ((py.count_words (get_transcript w sid) <? 30)%Z = true) as ->
      by lia.
    by rewrite orb_true_r.
  - assert (summaries_kept w (_generate_and_broadcast_summary w sid)) as [Hk _].
    { eapply summaries_kept_acts;
        [apply _generate_and_broadcast_summary_acts| |
         apply _generate_and_broadcast_summary_delivered].
      intros a b [->|(x & t & Hx & ->)]; [by left|by right]. }
    by apply Hk.
  - destruct (summaries_kept_process_chunk w sid seq c) as [Hk _].
    destruct (Hk sid' s Es) as (s' & Es' & Hs').
    exists s'. repeat split; [done|done|].
    intros Hne. destruct Hs' as [->|]; done.
  - by destruct (summaries_kept_process_chunk w sid seq c) as [_ Hd].
Qed.

End admission_and_policy.

(* ===================================================================== *)
(** ** The final summary and unknown sessions *)
(* ===================================================================== *)

Section finalize_theorems.
Context `{Collaborators}.
Import storage workers.

Lemma length_rev_app s1 s2 :
  String.length (String.rev_app s1 s2)
  = (String.length s1 + String.length s2)%nat.
Proof.
  revert s2. induction s1 as [|a s1 IH]; intros s2; simpl; [done|].
  rewrite IH. simpl. lia.
Qed.

Lemma length_lstrip s : (String.length (py.lstrip s) <= String.length s)%nat.
Proof.
  induction s as [|a s IH]; simpl; [done|].
  destruct (py.isspace a); simpl; lia.
Qed.

(** Stripping never makes a text longer: a text of fewer than 50
    characters has fewer than 50 characters once stripped. *)
Lemma strip_len_le s : py.len (py.strip s) <= py.len s.
Proof.
  unfold py.len, py.strip, py.rstrip, String.rev.
  rewrite length_rev_app. simpl.
  pose proof (length_lstrip (String.rev_app (py.lstrip s) "")) as H1.
  rewrite length_rev_app in H1. simpl in H1.
  pose proof (length_lstrip s). lia.
Qed.

Lemma final_summary_due_words t :
  final_summary_due t = (10 <=? py.count_words t)%Z.
Proof.
  unfold final_summary_due. destruct t; simpl; [done|].
  destruct (_ >=? 10)%Z eqn:E; lia.
Qed.

Lemma after_flush_traces w sid :
  delivered (after_flush w sid) = delivered w
  /\ summarize_calls (after_flush w sid) = summarize_calls w
  /\ active_connections (after_flush w sid) = active_connections w.
Proof.
  pose proof (transcriber_finalize_session_traces w sid) as Ht.
  unfold after_flush. simpl in Ht.
  destruct (transcriber.finalize_session w sid) as [w1 [ft|]]; simpl in *.
  - destruct (update_transcript_env w1 sid ft true)
      as (_ & -> & -> & -> & _). done.
  - done.
Qed.

Lemma after_final_summary_traces w sid :
  let t := get_transcript (after_flush w sid) sid in
  summarize_calls (after_final_summary w sid)
  = summarize_calls w ++ (if final_summary_due t then [t] else [])
  /\ delivered (after_final_summary w sid)
     = delivered w ++
       (if final_summary_due t
        then (fun c => (c, summary_msg sid (summary_of t)))
               <$> filter (accepts (summary_msg sid (summary_of t)))
                          (active_connections w)
        else []).
Proof.
  simpl. destruct (after_flush_traces w sid) as (Hd & Hc & Ha).
  unfold after_final_summary.
  destruct (final_summary_due _).
  - unfold _broadcast_summary.
    rewrite broadcast_summarize_calls, broadcast_delivered.
    destruct (update_summary_env
                (with_summarize_calls (after_flush w sid)
                   (summarize_calls (after_flush w sid)
                      ++ [get_transcript (after_flush w sid) sid]))
                sid (summary_of (get_transcript (after_flush w sid) sid)))
      as (_ & -> & -> & -> & _).
    simpl. by rewrite Hd, Hc, Ha.
  - by rewrite !app_nil_r.
Qed.

Lemma finalize_session_summarize_calls w sid :
  summarize_calls (finalize_session w sid)
  = summarize_calls (after_final_summary w sid).
Proof.
  rewrite finalize_session_unfold. simpl. rewrite broadcast_summarize_calls.
  by destruct (mark_session_ended_env (after_final_summary w sid) sid)
    as (_ & _ & _ & -> & _).
Qed.

Lemma finalize_session_delivered w sid :
  exists more,
    delivered (finalize_session w sid)
    = delivered (after_final_summary w sid) ++ more.
Proof.
  rewrite finalize_session_unfold. simpl. rewrite broadcast_delivered.
  eexists. f_equal.
  by destruct (mark_session_ended_env (after_final_summary w sid) sid)
    as (_ & _ & -> & _).
Qed.

(** C5, as the code has it.  [finalize_session] calls the summariser once,
    on the transcript as it stands after the flush text was appended, when
    that transcript has at least 10 words, and not at all otherwise; the
    summary policy is not consulted. *)
Theorem final_summary_at_ten_words (w : World) (sid : string) :
  let t := get_transcript (after_flush w sid) sid in
  summarize_calls (finalize_session w sid)
  = summarize_calls w ++ (if (10 <=? py.count_words t)%Z then [t] else []).
Proof.
  simpl. rewrite finalize_session_summarize_calls.
  destruct (after_final_summary_traces w sid) as [-> _].
  by rewrite final_summary_due_words.
Qed.

(** C10. When the transcript after the flush has at least 10 words but
    fewer than 50 characters once stripped, the summariser answers the
    empty string, and [finalize_session] stores it as the summary of the
    session, whatever summary was there, and sends it to the clients. *)
Theorem short_final_transcript_clears_summary (w : World) (sid : string)
    (s : Session) :
  sessions w !! sid = Some s ->
  let t := transcript (flushed w sid s) in
  10 <= py.count_words t ->
  py.len (py.strip t) < 50 ->
  snd (summarizer.summarize w t) = ""
  /\ exists s',
      sessions (finalize_session w sid) !! sid = Some s'
      /\ transcript s' = t
      /\ summary s' = ""
      /\ forall c, c ∈ active_connections w ->
                   send_text c (summary_msg sid "") = true ->
                   (c, summary_msg sid "")
                     ∈ drop (length (delivered w))
                            (delivered (finalize_session w sid)).
Proof.
  intros Es t Hwords Hlen.
  assert (summary_of t = "") as Hsum.
  { unfold summary_of.
    assert ((py.len (py.strip t) <? 50)%Z = true) as -> by lia.
    by rewrite orb_true_r. }
  assert (final_summary_due t = true) as Hdue
    by (rewrite final_summary_due_words; lia).
  split; [by rewrite summarize_spec|].
  destruct (acts_on_lookup _ _ _ _ _ (finalize_session_acts w sid) Es)
    as (s' & Es' & Hfin).
  apply finalized_fields in Hfin as (_ & _ & Ht & Hs & _).
  fold t in Ht, Hs. rewrite Hdue, Hsum in Hs.
  exists s'. repeat split; try done.
  intros c Hin Hacc.
  destruct (finalize_session_delivered w sid) as (more & ->).
  destruct (after_final_summary_traces w sid) as [_ Hd]. simpl in Hd.
  assert (get_transcript (after_flush w sid) sid = t) as Hgt.
  { destruct (acts_on_lookup _ _ _ _ _ (after_flush_acts w sid) Es)
      as (s2 & Es2 & ->).
    unfold get_transcript. by rewrite Es2. }
  rewrite Hgt, Hdue, Hsum in Hd. rewrite Hd.
  rewrite <- app_assoc, drop_app_length.
  apply elem_of_app. left.
  apply list_elem_of_fmap. exists c. split; [done|].
  by apply list_elem_of_filter.
Qed.

(** *** Unknown sessions *)

Lemma process_chunk_missing_session w sid seq c :
  sessions w !! sid = None ->
  sessions (process_chunk w sid seq c) = sessions w.
Proof.
  apply (process_chunk_rel sid
           (fun a b => sessions a !! sid = None -> sessions b = sessions a)).
  - done.
  - intros a b d Hab Hbd Ha. rewrite Hbd; rewrite (Hab Ha); done.
  - intros v k x. apply acts_on_missing with (Φ := fun _ _ => True).
    eapply acts_on_weaken; [|apply buffer_future_chunk_acts]. done.
  - intros v k. apply acts_on_missing with (Φ := fun _ _ => True).
    eapply acts_on_weaken; [|apply remove_buffered_chunk_acts]. done.
  - intros v wav. apply acts_on_missing with (Φ := fun _ _ => True).
    eapply acts_on_weaken; [|apply transcribe_and_advance_acts]. done.
Qed.

(** C6, as the code has it.  For a session id that is not in the store,
    [end_session] is not rejected: it answers "ended" with an empty
    transcript, an empty summary and empty metadata, and the store is as
    before.  [upload_chunk] answers 413 or 400 when the size or the suffix
    is refused, 500 when the directory of the session is missing on disk,
    and "received" otherwise; the store is as before in every case. *)
Theorem unknown_session_not_rejected (w : World) (sid : string) :
  sessions w !! sid = None ->
  snd (main.end_session w sid) = main.ended_response sid "" "" None
  /\ sessions (fst (main.end_session w sid)) = sessions w
  /\ forall seq chunk,
      snd (main.upload_chunk w sid seq chunk)
      = (if (Z.of_nat (length (main.upload_data chunk)) >? MAX_CHUNK_SIZE)%Z
         then main.HTTPException 413
         else if decide (main.upload_suffix chunk ∈ SUPPORTED_FORMATS)
              then if decide (sid ∈ session_dirs w)
                   then main.received sid seq
                          (Z.of_nat (length (main.upload_data chunk)))
                   else main.HTTPException 500
              else main.HTTPException 400)
      /\ sessions (fst (main.upload_chunk w sid seq chunk)) = sessions w.
Proof.
  intros Es.
  pose proof (acts_on_missing _ _ _ _ (finalize_session_acts w sid) Es) as Hs.
  split; [|split].
  - unfold main.end_session. simpl.
    unfold get_transcript, get_summary, get_session_metadata.
    by rewrite Hs, Es.
  - done.
  - intros seq chunk. unfold main.upload_chunk.
    destruct (_ >? _)%Z; [done|]. case_decide; [|done].
    unfold save_chunk. case_decide; [|done].
    rewrite Es. simpl. split; [done|].
    by apply process_chunk_missing_session.
Qed.

End finalize_theorems.

(* ===================================================================== *)
(** ** The theorems at concrete inputs *)
(* ===================================================================== *)

Section concrete.
Import demo storage workers.
#[local] Existing Instance demo.env.


Lemma admission_stale_and_future_witness :
  process_chunk (world (session " hello" "" 2 0) None 2) "S1" 1 c1
  = world (session " hello" "" 2 0) None 2
  /\ process_chunk (world (session " hello" "" 2 0) None 2) "S1" 5 c1
     = store (world (session " hello" "" 2 0) None 2) "S1"
         (set_buffered_chunks (session " hello" "" 2 0)
            (<[5 := c1]> (buffered_chunks (session " hello" "" 2 0)))).
Proof.
  destruct (admission_stale_and_future
              (world (session " hello" "" 2 0) None 2) "S1"
              (session " hello" "" 2 0) c1 eq_refl) as [Hstale Hfuture].
  split.
  - apply Hstale. simpl. lia.
  - apply Hfuture. simpl. lia.
Defined.

(** 60 words: no summary after 20 seconds, a summary after 40. *)
Lemma summary_policy_witness :
  fst (should_generate_summary (world sixty_words None 2) "S1"
         SUMMARY_WORD_THRESHOLD SUMMARY_TIME_INTERVAL) = false
  /\ fst (should_generate_summary (world sixty_words None 4) "S1"
            SUMMARY_WORD_THRESHOLD SUMMARY_TIME_INTERVAL) = true.
Proof.
  split.
  - destruct (summary_policy (world sixty_words None 2) "S1" sixty_words
                eq_refl) as (_ & _ & H60).
    simpl in H60. apply not_true_is_false. intros Ht.
    apply (proj1 (H60 eq_refl)) in Ht. vm_compute in Ht. by apply Ht.
  - destruct (summary_policy (world sixty_words None 4) "S1" sixty_words
                eq_refl) as (_ & _ & H60).
    apply (H60 eq_refl). vm_compute. discriminate.
Defined.

(** Chunk 2 uploaded to a new session waits behind [expected_seq = 0]. *)
Lemma buffered_keys_ahead_of_expected_witness :
  exists s,
    sessions (main.serve (main.serve (main.startup ∅ clk)
                            (main.POST_create "S1"))
                (main.POST_upload "S1" 2 (upload "with the agenda"))) !! "S1"
    = Some s
    /\ buffered_chunks s !! 2 = Some c2
    /\ expected_seq s < 2.
Proof.
  eexists. split; [vm_compute; reflexivity|]. split; [vm_compute; reflexivity|].
  eapply (buffered_keys_ahead_of_expected
            (main.serve (main.serve (main.startup ∅ clk)
                           (main.POST_create "S1"))
               (main.POST_upload "S1" 2 (upload "with the agenda")))
            "S1" _ 2 c2).
  - apply main.reach_serve, main.reach_serve, main.reach_startup.
  - vm_compute. reflexivity.
  - vm_compute. reflexivity.
Defined.

Lemma chunk_processing_keeps_summary_witness :
  exists s',
    sessions (process_chunk (world (session " hello" "Greeting." 0 0) None 2)
                "S1" 0 c0) !! "S1" = Some s'
    /\ summary s' <> "".
Proof.
  destruct (chunk_processing_keeps_summary
              (world (session " hello" "Greeting." 0 0) None 2) "S1" 0 c0
              "S1" (session " hello" "Greeting." 0 0) eq_refl)
    as (_ & _ & (s' & Es' & _ & Hne) & _).
  exists s'. split; [exact Es'|]. apply Hne. simpl. discriminate.
Defined.

(** Five words in the transcript, six more from the flush: 11 words in 21
    characters, and the summary stored before is gone. *)
Lemma short_final_transcript_clears_summary_witness :
  exists s',
    sessions (finalize_session closing "S1") !! "S1" = Some s'
    /\ summary s' = ""
    /\ (1%nat, summary_msg "S1" "")
         ∈ drop (length (delivered closing))
                (delivered (finalize_session closing "S1")).
Proof.
  destruct (short_final_transcript_clears_summary closing "S1"
              (session initials "Greeting." 3 0) eq_refl)
    as (_ & s' & Es' & _ & Hs' & Hd).
  - vm_compute. discriminate.
  - vm_compute. reflexivity.
  - exists s'. split; [exact Es'|]. split; [exact Hs'|].
    apply (Hd 1%nat); [apply list_elem_of_here|reflexivity].
Defined.

Lemma unknown_session_not_rejected_witness :
  snd (main.end_session fresh "ghost") = main.ended_response "ghost" "" "" None
  /\ snd (main.upload_chunk fresh "ghost" 0 (upload "hello"))
     = main.HTTPException 500.
Proof.
  destruct (unknown_session_not_rejected fresh "ghost" eq_refl)
    as (Hend & _ & Hup).
  split; [exact Hend|].
  destruct (Hup 0 (upload "hello")) as [-> _]. vm_compute. reflexivity.
Defined.

(** C5 as stated fails.  A transcript of 5 words and a flush of 6 more make
    11 words, and [finalize_session] does call the summariser, on those 11
    words: the minimum in the code is 10. *)
Lemma final_summary_at_eleven_words :
  py.count_words
    (get_transcript (world (session five "" 3 0) (Some six) 2) "S1") = 5
  /\ flush_text (world (session five "" 3 0) (Some six) 2) "S1" = Some six
  /\ py.count_words six = 6
  /\ summarize_calls (world (session five "" 3 0) (Some six) 2) = []
  /\ summarize_calls
       (finalize_session (world (session five "" 3 0) (Some six) 2) "S1")
     = [(five ++ " " ++ six)%string]
  /\ py.count_words (five ++ " " ++ six)%string = 11.
Proof. vm_compute. repeat split; reflexivity. Qed.

(** C6 as stated fails.  Ending a session that was never created is
    answered like a success, and so is an upload for it when a directory of
    that name is left on disk from an earlier run. *)
Lemma unknown_session_is_answered_ended :
  sessions fresh !! "ghost" = None
  /\ snd (main.end_session fresh "ghost")
     = main.ended_response "ghost" "" "" None
  /\ snd (main.upload_chunk (with_session_dirs fresh {["S1"; "ghost"]})
            "ghost" 0 (upload "hello"))
     = main.received "ghost" 0 5.
Proof. vm_compute. repeat split; reflexivity. Qed.

(** C2 fails on a conversion failure.  The expected chunk 0 of a fresh
    session cannot be converted: [process_chunk] gives back the world
    unchanged, [expected_seq] is still 0, and the chunks 1 and 2 that
    follow stay in the buffer.  A chunk 0 that converts but holds no
    speech does move [expected_seq] to 1. *)
Lemma failed_conversion_does_not_advance :
  _convert_to_wav "S1" 0 broken = None
  /\ process_chunk fresh "S1" 0 broken = fresh
  /\ get_expected_seq (process_chunk fresh "S1" 0 broken) "S1" = 0
  /\ get_expected_seq (deliver fresh "S1" [(0, broken); (1, c1); (2, c2)]) "S1"
     = 0
  /\ get_transcript (deliver fresh "S1" [(0, broken); (1, c1); (2, c2)]) "S1"
     = ""
  /\ get_buffered_chunk (deliver fresh "S1" [(0, broken); (1, c1); (2, c2)])
       "S1" 1 = Some c1
  /\ snd (transcriber.transcribe_chunk fresh "S1" silence) = None
  /\ get_expected_seq (process_chunk fresh "S1" 0 silence) "S1" = 1.
Proof.
  split; [reflexivity|].
  split; [exact (process_chunk_conversion_failed fresh "S1" broken eq_refl)|].
  vm_compute. repeat split; reflexivity.
Qed.

(** Three clients, the second one broken. *)
Lemma broadcast_isolates_failures_witness :
  ((1%nat, summary_msg "S1" "Hi.")
     ∈ drop (length (delivered fresh))
            (delivered (WebSocketManager.broadcast fresh (summary_msg "S1" "Hi."))))
  /\ ((3%nat, summary_msg "S1" "Hi.")
        ∈ drop (length (delivered fresh))
               (delivered (WebSocketManager.broadcast fresh (summary_msg "S1" "Hi."))))
  /\ (2%nat ∉ active_connections
                (WebSocketManager.broadcast fresh (summary_msg "S1" "Hi."))).
Proof.
  destruct (broadcast_isolates_failures fresh (summary_msg "S1" "Hi.")
              (summary_msg "S1" "Hi.")) as (_ & _ & Hacc & Href).
  split; [|split].
  - apply (Hacc 1%nat); [apply list_elem_of_here|reflexivity].
  - apply (Hacc 3%nat); [|reflexivity].
    apply list_elem_of_further, list_elem_of_further, list_elem_of_here.
  - apply (Href 2%nat). reflexivity.
Defined.

(** Three clients, the second one broken: the other two get the message
    and the broken one is no longer registered. *)
Example broadcast_three_clients :
  delivered (WebSocketManager.broadcast fresh (summary_msg "S1" "Hi."))
  = [(1%nat, summary_msg "S1" "Hi."); (3%nat, summary_msg "S1" "Hi.")]
  /\ active_connections
       (WebSocketManager.broadcast fresh (summary_msg "S1" "Hi."))
     = [1; 3]%nat.
Proof. vm_compute. split; reflexivity. Qed.

(** The scenario of the specification: arrivals 0, 2, 1, 3. *)
Example arrivals_0_2_1_3 :
  get_expected_seq
    (deliver fresh "S1"
       [(0, c0); (2, c2); (1, c1); (3, audio "S1" 3 "for today")]) "S1" = 4
  /\ get_transcript
       (deliver fresh "S1"
          [(0, c0); (2, c2); (1, c1); (3, audio "S1" 3 "for today")]) "S1"
     = " good morning everyone let us begin with the agenda for today"
  /\ get_buffered_chunk (deliver fresh "S1" [(0, c0); (2, c2)]) "S1" 2
     = Some c2.
Proof. vm_compute. repeat split; reflexivity. Qed.

End concrete.

(* ===================================================================== *)
(** ** Words and appended text *)
(* ===================================================================== *)

Section text_facts.

Lemma string_app_cons a s t : (String a s ++ t)%string = String a (s ++ t)%string.
Proof. reflexivity. Qed.

Lemma string_app_assoc s t u : ((s ++ t) ++ u)%string = (s ++ (t ++ u))%string.
Proof.
  induction s as [|a s IH]; [reflexivity|].
  by rewrite !string_app_cons, IH.
Qed.

Lemma string_app_nil_r s : (s ++ "")%string = s.
Proof.
  induction s as [|a s IH]; [reflexivity|].
  by rewrite string_app_cons, IH.
Qed.

Lemma split_go_app_space cur a b :
  py.split_go cur (a ++ String " " b)%string
  = py.split_go cur a ++ py.split_go [] b.
Proof.
  revert cur. induction a as [|x a IH]; intros cur.
  - reflexivity.
  - rewrite string_app_cons. simpl. destruct (py.isspace x).
    + by rewrite IH, app_assoc.
    + apply IH.
Qed.

(** [len((a + " " + b).split())] is [len(a.split()) + len(b.split())]: the
    separating blank never joins or cuts a word. *)
Lemma count_words_append (a b : string) :
  py.count_words (a ++ " " ++ b)%string = py.count_words a + py.count_words b.
Proof.
  unfold py.count_words, py.split.
  change (a ++ " " ++ b)%string with (a ++ String " " b)%string.
  rewrite split_go_app_space, length_app. lia.
Qed.

Lemma count_words_nonneg s : 0 <= py.count_words s.
Proof. unfold py.count_words. lia. Qed.

End text_facts.

(* ===================================================================== *)
(** ** How chunk processing lets a session evolve *)
(* ===================================================================== *)

Section evolution_facts.
Context `{Collaborators}.
Import storage workers.

Lemma extends_refl s : extends s s.
Proof.
  unfold extends. split_and!; try done.
  exists "". by rewrite string_app_nil_r.
Qed.

Lemma extends_trans a b c : extends a b -> extends b c -> extends a c.
Proof.
  intros (Hi1 & Hc1 & Hs1 & Hr1 & He1 & Hx1 & (x1 & Ht1) & Hw1)
         (Hi2 & Hc2 & Hs2 & Hr2 & He2 & Hx2 & (x2 & Ht2) & Hw2).
  unfold extends. split_and!; try congruence.
  - lia.
  - exists (x1 ++ x2)%string. by rewrite Ht2, Ht1, string_app_assoc.
  - intros Ha. destruct (Hw1 Ha) as [Hb ?]. destruct (Hw2 Hb).
    split; [done|lia].
Qed.

Lemma extends_set_buffered_chunks s b : extends s (set_buffered_chunks s b).
Proof.
  unfold extends. simpl. split_and!; try done.
  exists "". by rewrite string_app_nil_r.
Qed.

Lemma extends_set_expected_seq s n :
  expected_seq s <= n -> extends s (set_expected_seq s n).
Proof.
  intros Hn. unfold extends. simpl. split_and!; try done.
  exists "". by rewrite string_app_nil_r.
Qed.

Lemma extends_append s text :
  extends s (set_word_count
               (set_transcript s (transcript s ++ " " ++ text)%string)
               (py.count_words (transcript s ++ " " ++ text)%string)).
Proof.
  unfold extends. simpl. split_and!; try done.
  - by eexists.
  - unfold counted. simpl. intros ->. split; [done|].
    rewrite count_words_append. pose proof (count_words_nonneg text). lia.
Qed.

Lemma extends_summary_refreshed s s' : summary_refreshed s s' -> extends s s'.
Proof.
  intros [-> | (x & t & Hx & ->)]; [apply extends_refl|].
  unfold extends. simpl. split_and!; try done.
  exists "". by rewrite string_app_nil_r.
Qed.

Lemma extends_pipeline_step text s s' : pipeline_step text s s' -> extends s s'.
Proof.
  intros (s2 & Hr & ->).
  eapply extends_trans; [|apply extends_set_expected_seq; lia].
  eapply extends_trans; [|apply extends_summary_refreshed; exact Hr].
  destruct (py.truthy text); [apply extends_append|apply extends_refl].
Qed.

(** The appended transcript and its word count after [update_transcript]. *)
Lemma update_transcript_lookup w sid s text :
  sessions w !! sid = Some s ->
  sessions (update_transcript w sid text true) !! sid
  = Some (set_word_count
            (set_transcript s (transcript s ++ " " ++ text)%string)
            (py.count_words (transcript s ++ " " ++ text)%string)).
Proof.
  intros Es.
  destruct (acts_on_lookup _ _ _ _ _ (update_transcript_acts w sid text) Es)
    as (s' & Es' & ->).
  exact Es'.
Qed.

Lemma _generate_and_broadcast_summary_disk_clock w sid :
  session_dirs (_generate_and_broadcast_summary w sid) = session_dirs w
  /\ clock (_generate_and_broadcast_summary w sid) = clock w.
Proof.
  unfold _generate_and_broadcast_summary.
  destruct (_ || _); [done|].
  rewrite summarize_spec.
  destruct (py.truthy _); [|done].
  unfold _broadcast_summary.
  rewrite broadcast_session_dirs, broadcast_clock.
  by destruct (update_summary_env
                 (with_summarize_calls w
                    (summarize_calls w ++ [get_transcript w sid]))
                 sid (summary_of (get_transcript w sid)))
    as (_ & _ & _ & _ & -> & ->).
Qed.

Lemma transcribe_and_advance_disk_clock w sid wav :
  session_dirs (transcribe_and_advance w sid wav) = session_dirs w
  /\ clock (transcribe_and_advance w sid wav) = clock w.
Proof.
  unfold transcribe_and_advance. rewrite transcribe_chunk_spec.
  set (text := snd (recognized w sid wav)).
  set (w0 := with_recognizers w _).
  assert (forall v, session_dirs (increment_expected_seq v sid) = session_dirs v
                    /\ clock (increment_expected_seq v sid) = clock v) as Hinc.
  { intros v.
    by destruct (increment_expected_seq_env v sid) as (_ & _ & _ & _ & -> & ->). }
  destruct (py.truthy text); [|by rewrite !(proj1 (Hinc _)), !(proj2 (Hinc _))].
  destruct (should_generate_summary _ _ _ _) as [trigger w3] eqn:E3.
  pose proof (should_generate_summary_env
                (_broadcast_transcript_update
                   (update_transcript w0 sid text true) sid text)
                sid SUMMARY_WORD_THRESHOLD SUMMARY_TIME_INTERVAL) as He3.
  rewrite E3 in He3. simpl in He3.
  destruct He3 as (_ & _ & _ & _ & Hd3 & Hc3).
  unfold _broadcast_transcript_update in Hd3, Hc3.
  rewrite broadcast_session_dirs in Hd3. rewrite broadcast_clock in Hc3.
  destruct (update_transcript_env w0 sid text true)
    as (_ & _ & _ & _ & Hdu & Hcu).
  rewrite Hdu in Hd3. rewrite Hcu in Hc3.
  rewrite (proj1 (Hinc _)), (proj2 (Hinc _)).
  destruct trigger.
  - destruct (_generate_and_broadcast_summary_disk_clock w3 sid) as [-> ->].
    by rewrite Hd3, Hc3.
  - by rewrite Hd3, Hc3.
Qed.

Lemma chunk_effect_refl sid w : chunk_effect sid w w.
Proof.
  unfold chunk_effect. split_and!; try done.
  apply acts_on_same; [apply extends_refl|done].
Qed.

Lemma chunk_effect_trans sid a b c :
  chunk_effect sid a b -> chunk_effect sid b c -> chunk_effect sid a c.
Proof.
  intros (Ha1 & Hd1 & Hc1 & Hr1) (Ha2 & Hd2 & Hc2 & Hr2).
  unfold chunk_effect. split_and!; try congruence.
  - eapply acts_on_compose; [|exact Ha1|exact Ha2]. apply extends_trans.
  - intros sid' Hne. by rewrite Hr2, Hr1.
Qed.

Lemma chunk_effect_buffer_future_chunk sid w seq c :
  chunk_effect sid w (buffer_future_chunk w sid seq c).
Proof.
  destruct (buffer_future_chunk_env w sid seq c) as (Hr & _ & _ & _ & Hd & Hc).
  unfold chunk_effect. split_and!; try done.
  - eapply acts_on_weaken; [|apply buffer_future_chunk_acts].
    intros a b ->. apply extends_set_buffered_chunks.
  - intros sid' _. by rewrite Hr.
Qed.

Lemma chunk_effect_remove_buffered_chunk sid w seq :
  chunk_effect sid w (remove_buffered_chunk w sid seq).
Proof.
  destruct (remove_buffered_chunk_env w sid seq) as (Hr & _ & _ & _ & Hd & Hc).
  unfold chunk_effect. split_and!; try done.
  - eapply acts_on_weaken; [|apply remove_buffered_chunk_acts].
    intros a b ->. apply extends_set_buffered_chunks.
  - intros sid' _. by rewrite Hr.
Qed.

Lemma chunk_effect_transcribe_and_advance sid w wav :
  chunk_effect sid w (transcribe_and_advance w sid wav).
Proof.
  destruct (transcribe_and_advance_disk_clock w sid wav) as [Hd Hc].
  unfold chunk_effect. split_and!; try done.
  - eapply acts_on_weaken; [|apply transcribe_and_advance_acts].
    intros a b. apply extends_pipeline_step.
  - intros sid' Hne.
    by rewrite transcribe_and_advance_recognizers, lookup_insert_ne.
Qed.

Lemma chunk_effect_process_chunk sid w seq c :
  chunk_effect sid w (process_chunk w sid seq c).
Proof.
  apply (process_chunk_rel sid (chunk_effect sid)).
  - apply chunk_effect_refl.
  - apply chunk_effect_trans.
  - intros. apply chunk_effect_buffer_future_chunk.
  - intros. apply chunk_effect_remove_buffered_chunk.
  - intros. apply chunk_effect_transcribe_and_advance.
Qed.

Lemma chunk_effect_drain sid fuel w w' :
  _process_buffered_chunks_fuel fuel w sid = Some w' -> chunk_effect sid w w'.
Proof.
  apply (proj2 (process_chunk_fuel_rel sid (chunk_effect sid)
                  (chunk_effect_refl sid) (chunk_effect_trans sid)
                  (chunk_effect_buffer_future_chunk sid)
                  (chunk_effect_remove_buffered_chunk sid)
                  (chunk_effect_transcribe_and_advance sid) fuel)).
Qed.

Lemma chunk_effect_expected sid w w' :
  chunk_effect sid w w' -> get_expected_seq w sid <= get_expected_seq w' sid.
Proof.
  intros (Ha & _). unfold get_expected_seq.
  destruct (sessions w !! sid) as [s|] eqn:Es.
  - destruct (acts_on_lookup _ _ _ _ _ Ha Es) as (s' & -> & Hx).
    by destruct Hx as (_ & _ & _ & _ & _ & ? & _).
  - by rewrite (acts_on_missing _ _ _ _ Ha Es), Es.
Qed.

Lemma chunk_effect_lookup sid w w' sid' s :
  chunk_effect sid w w' -> sessions w !! sid' = Some s ->
  exists s', sessions w' !! sid' = Some s' /\ extends s s'.
Proof.
  intros (Ha & _) Es. destruct (decide (sid' = sid)) as [->|Hne].
  - by apply (acts_on_lookup _ _ _ _ _ Ha Es).
  - exists s. split; [|apply extends_refl].
    by rewrite (acts_on_other _ _ _ _ _ Ha Hne).
Qed.

(** X1. Appending a text to the transcript of a session whose word count is
    right puts one blank and the text behind the transcript and raises the
    word count by exactly the number of words of the text. *)
Theorem update_transcript_adds_words (w : World) (sid text : string)
    (s : Session) :
  sessions w !! sid = Some s ->
  counted s ->
  exists s',
    sessions (update_transcript w sid text true) !! sid = Some s'
    /\ transcript s' = (transcript s ++ " " ++ text)%string
    /\ word_count s' = word_count s + py.count_words text
    /\ counted s'.
Proof.
  intros Es Hc. eexists. split; [by apply update_transcript_lookup|].
  simpl. split_and!; try done.
  rewrite count_words_append. by rewrite Hc.
Qed.

(** X2. [process_chunk] never lowers the sequence number a session expects,
    whatever arrives and whether or not the session exists. *)
Theorem expected_seq_never_decreases (w : World) (sid : string) (seq : Z)
    (c : Chunk) :
  get_expected_seq w sid <= get_expected_seq (process_chunk w sid seq c) sid.
Proof. apply chunk_effect_expected, chunk_effect_process_chunk. Qed.

(** X3. Over a call of [process_chunk], for any session of the store, the
    transcript is only appended to, the identity, the status and the upload
    counter stay, and a word count that was right stays right and does not
    go down. *)
Theorem transcript_append_only (w : World) (sid : string) (seq : Z) (c : Chunk)
    (sid' : string) (s : Session) :
  sessions w !! sid' = Some s ->
  exists s' suffix,
    sessions (process_chunk w sid seq c) !! sid' = Some s'
    /\ transcript s' = (transcript s ++ suffix)%string
    /\ id s' = id s /\ status s' = status s
    /\ chunks_received s' = chunks_received s
    /\ (counted s -> counted s' /\ word_count s <= word_count s').
Proof.
  intros Es.
  destruct (chunk_effect_lookup _ _ _ _ _ (chunk_effect_process_chunk sid w seq c) Es)
    as (s' & Es' & Hi & _ & Hs & Hr & _ & _ & (x & Ht) & Hw).
  exists s', x. by split_and!.
Qed.

(** X4. A call of [process_chunk] for one session leaves the record and the
    recogniser of every other session as they were, creates and deletes no
    session, and leaves the session directories alone. *)
Theorem process_chunk_isolated (w : World) (sid : string) (seq : Z) (c : Chunk) :
  (forall sid', sid' <> sid ->
     sessions (process_chunk w sid seq c) !! sid' = sessions w !! sid'
     /\ recognizers (process_chunk w sid seq c) !! sid'
        = recognizers w !! sid')
  /\ dom (sessions (process_chunk w sid seq c)) = dom (sessions w)
  /\ session_dirs (process_chunk w sid seq c) = session_dirs w.
Proof.
  destruct (chunk_effect_process_chunk sid w seq c) as (Ha & Hd & _ & Hr).
  split; [|split; [|done]].
  - intros sid' Hne. split; [|by apply Hr].
    by apply (acts_on_other _ _ _ _ _ Ha Hne).
  - unfold acts_on in Ha. destruct (sessions w !! sid) as [s|] eqn:Es.
    + destruct Ha as (s' & -> & _). by apply dom_insert_lookup_L.
    + by rewrite Ha.
Qed.

(** X5. Once a session with a right word count holds 200 words or more, the
    summary decision is [true] after every further call of [process_chunk],
    at any clock reading: the word threshold is a level, not an edge. *)
Theorem word_threshold_stays_crossed (w : World) (sid : string) (seq : Z)
    (c : Chunk) (s : Session) :
  sessions w !! sid = Some s ->
  counted s ->
  SUMMARY_WORD_THRESHOLD <= word_count s ->
  fst (should_generate_summary (process_chunk w sid seq c) sid
         SUMMARY_WORD_THRESHOLD SUMMARY_TIME_INTERVAL) = true.
Proof.
  intros Es Hc Hw.
  destruct (chunk_effect_lookup _ _ _ _ _ (chunk_effect_process_chunk sid w seq c) Es)
    as (s' & Es' & _ & _ & _ & _ & _ & _ & _ & Hwc).
  destruct (Hwc Hc) as [_ Hle].
  unfold should_generate_summary. rewrite Es'.
  assert ((word_count s' >=? SUMMARY_WORD_THRESHOLD)%Z = true) as -> by lia.
  done.
Qed.

End evolution_facts.

(* ===================================================================== *)
(** ** The expected chunk, duplicates, and chunks that cannot be converted *)
(* ===================================================================== *)

Section admission_facts.
Context `{Collaborators}.
Import storage workers.

Lemma get_expected_seq_lookup w sid s :
  sessions w !! sid = Some s -> get_expected_seq w sid = expected_seq s.
Proof. intros Es. unfold get_expected_seq. by rewrite Es. Qed.

(** The expected chunk, once converted, goes through the pipeline and the
    buffer is drained behind it. *)
Lemma process_chunk_expected_drains w sid c wav :
  ffmpeg sid (get_expected_seq w sid) c = Some wav ->
  _process_buffered_chunks_fuel (2 * buffered_count w sid + 1)
    (transcribe_and_advance w sid wav) sid
  = Some (process_chunk w sid (get_expected_seq w sid) c).
Proof.
  intros Hc.
  pose proof (process_chunk_returns w sid (get_expected_seq w sid) c) as Hr.
  rewrite enough_fuel_S, process_chunk_fuel_S in Hr.
  rewrite Z.ltb_irrefl in Hr.
  assert ((get_expected_seq w sid >? get_expected_seq w sid)%Z = false)
    as Hgt by lia.
  rewrite Hgt in Hr. unfold _convert_to_wav in Hr. by rewrite Hc in Hr.
Qed.

Lemma process_chunk_expected_advances w sid s c wav :
  sessions w !! sid = Some s ->
  ffmpeg sid (expected_seq s) c = Some wav ->
  expected_seq s + 1
  <= get_expected_seq (process_chunk w sid (expected_seq s) c) sid.
Proof.
  intros Es Hc.
  rewrite <- (get_expected_seq_lookup w sid s Es) in Hc |- * at 2.
  pose proof (process_chunk_expected_drains w sid c wav Hc) as Hd.
  apply chunk_effect_drain, chunk_effect_expected in Hd.
  destruct (converted_chunk_advances w sid s wav Es) as (s' & Es' & He').
  rewrite (get_expected_seq_lookup _ _ _ Es') in Hd. lia.
Qed.

(** X6. When the chunk a session expects is converted, the session expects
    a later number once [process_chunk] is back, and delivering that number
    or an earlier one again, with whatever content, changes nothing. *)
Theorem admitted_chunk_is_consumed (w : World) (sid : string) (s : Session)
    (c : Chunk) (wav : Wav) :
  sessions w !! sid = Some s ->
  ffmpeg sid (expected_seq s) c = Some wav ->
  let w' := process_chunk w sid (expected_seq s) c in
  expected_seq s < get_expected_seq w' sid
  /\ forall seq c', seq <= expected_seq s -> process_chunk w' sid seq c' = w'.
Proof.
  intros Es Hc. simpl.
  pose proof (process_chunk_expected_advances w sid s c wav Es Hc) as Hadv.
  split; [lia|].
  intros seq c' Hseq. apply process_chunk_stale. lia.
Qed.

(** X7. When the chunk a session expects is converted but the chunk buffered
    for the next number is not, the drain takes that chunk out of the buffer
    without transcribing it and stops: the session then expects the number
    of the dropped chunk and holds nothing for it. *)
Theorem unconvertible_buffered_chunk_is_dropped (w : World) (sid : string)
    (s : Session) (c c1 : Chunk) (wav : Wav) :
  sessions w !! sid = Some s ->
  ffmpeg sid (expected_seq s) c = Some wav ->
  buffered_chunks s !! (expected_seq s + 1) = Some c1 ->
  ffmpeg sid (expected_seq s + 1) c1 = None ->
  let w' := process_chunk w sid (expected_seq s) c in
  w' = remove_buffered_chunk (transcribe_and_advance w sid wav) sid
         (expected_seq s + 1)
  /\ get_expected_seq w' sid = expected_seq s + 1
  /\ get_buffered_chunk w' sid (expected_seq s + 1) = None.
Proof.
  intros Es Hc Hb Hc1. simpl.
  destruct (acts_on_lookup _ _ _ _ _ (transcribe_and_advance_acts w sid wav) Es)
    as (s1 & Es1 & Hs1).
  apply pipeline_step_fields in Hs1 as (He1 & Hb1 & _).
  set (w1 := transcribe_and_advance w sid wav) in *.
  assert (get_expected_seq w1 sid = expected_seq s + 1) as Hexp1
    by (by rewrite (get_expected_seq_lookup _ _ _ Es1)).
  assert (get_buffered_chunk w1 sid (expected_seq s + 1) = Some c1) as Hget1.
  { unfold get_buffered_chunk. by rewrite Es1, Hb1. }
  set (w2 := remove_buffered_chunk w1 sid (expected_seq s + 1)).
  assert (get_expected_seq w2 sid = expected_seq s + 1) as Hexp2
    by (unfold w2; by rewrite get_expected_seq_remove).
  assert (get_buffered_chunk w2 sid (expected_seq s + 1) = None) as Hget2.
  { destruct (acts_on_lookup _ _ _ _ _
                (remove_buffered_chunk_acts w1 sid (expected_seq s + 1)) Es1)
      as (s2 & Es2 & ->).
    unfold get_buffered_chunk. fold w2 in Es2. rewrite Es2. simpl.
    apply lookup_delete_eq. }
  assert (process_chunk_fuel 3 w sid (expected_seq s) c = Some w2) as H3.
  { rewrite process_chunk_fuel_S, (get_expected_seq_lookup _ _ _ Es).
    rewrite Z.ltb_irrefl.
    assert ((expected_seq s >? expected_seq s)%Z = false) as -> by lia.
    unfold _convert_to_wav. rewrite Hc. fold w1.
    rewrite _process_buffered_chunks_fuel_S, Hexp1, Hget1. fold w2.
    rewrite process_chunk_fuel_S, Hexp2, Z.ltb_irrefl.
    assert ((expected_seq s + 1 >? expected_seq s + 1)%Z = false) as -> by lia.
    unfold _convert_to_wav. rewrite Hc1.
    by rewrite _process_buffered_chunks_fuel_S, Hexp2, Hget2. }
  assert (process_chunk w sid (expected_seq s) c = w2) as ->.
  { pose proof (process_chunk_returns w sid (expected_seq s) c) as Hr.
    rewrite (proj1 (fuel_monotone sid 3) _ _ _ _ (enough_fuel w sid) H3) in Hr.
    - by injection Hr.
    - unfold enough_fuel, buffered_count. rewrite Es.
      assert (size (buffered_chunks s) <> 0)%nat; [|lia].
      intros Hz. apply map_size_empty_inv in Hz. by rewrite Hz in Hb. }
  done.
Qed.


End admission_facts.

(* ===================================================================== *)
(** ** What every reachable world keeps *)
(* ===================================================================== *)

Section kept_facts.
Context `{Collaborators}.
Import storage workers.

Lemma after_flush_env w sid :
  session_dirs (after_flush w sid) = session_dirs w
  /\ recognizers (after_flush w sid) = delete sid (recognizers w).
Proof.
  unfold after_flush, transcriber.finalize_session.
  destruct (recognizers w !! sid) as [r|] eqn:Er; simpl.
  - destruct (py.truthy (FinalResult r)); [|done].
    by destruct (update_transcript_env
                   (with_recognizers w (delete sid (recognizers w)))
                   sid (FinalResult r) true) as (-> & _ & _ & _ & -> & _).
  - by rewrite delete_id.
Qed.

Lemma after_final_summary_env w sid :
  session_dirs (after_final_summary w sid) = session_dirs w
  /\ recognizers (after_final_summary w sid) = delete sid (recognizers w).
Proof.
  destruct (after_flush_env w sid) as [Hd Hr].
  unfold after_final_summary. destruct (final_summary_due _); [|done].
  unfold _broadcast_summary.
  rewrite broadcast_session_dirs, broadcast_recognizers.
  by destruct (update_summary_env
                 (with_summarize_calls (after_flush w sid)
                    (summarize_calls (after_flush w sid)
                       ++ [get_transcript (after_flush w sid) sid]))
                 sid (summary_of (get_transcript (after_flush w sid) sid)))
    as (-> & _ & _ & _ & -> & _).
Qed.

(** [finalize_session] leaves the directories alone and gives up the
    recogniser of the session. *)
Lemma finalize_session_env w sid :
  session_dirs (finalize_session w sid) = session_dirs w
  /\ recognizers (finalize_session w sid) = delete sid (recognizers w).
Proof.
  destruct (after_final_summary_env w sid) as [Hd Hr].
  rewrite finalize_session_unfold. simpl.
  rewrite broadcast_session_dirs, broadcast_recognizers.
  by destruct (mark_session_ended_env (after_final_summary w sid) sid)
    as (-> & _ & _ & _ & -> & _).
Qed.

Lemma counted_flushed w sid s : counted s -> counted (flushed w sid s).
Proof. unfold flushed. by destruct (flush_text w sid). Qed.

Lemma well_kept_extends dirs sid s s' :
  extends s s' -> well_kept dirs sid s -> well_kept dirs sid s'.
Proof.
  intros (Hi & _ & Hs & Hr & He & Hx & _ & Hw) (Hd & Hid & Hexp & Hrec & Hc & Hst).
  unfold well_kept. split_and!; try done; try congruence; try lia;
    try (by apply Hw); by rewrite Hs, He.
Qed.

Lemma well_kept_finalized w dirs sid s s' :
  finalized w sid s s' -> well_kept dirs sid s -> well_kept dirs sid s'.
Proof.
  intros (t_sum & t_end & ->) (Hd & Hid & Hexp & Hrec & Hc & Hst).
  pose proof (counted_flushed w sid s Hc) as Hcf.
  unfold well_kept, flushed in *.
  destruct (flush_text w sid); destruct (final_summary_due _); simpl;
    split_and!; try done; by split.
Qed.

Lemma all_well_kept_acts sid (Φ : Session -> Session -> Prop) w w' :
  acts_on sid Φ w w' ->
  session_dirs w' = session_dirs w ->
  (forall a b, Φ a b -> well_kept (session_dirs w) sid a ->
               well_kept (session_dirs w) sid b) ->
  all_well_kept w -> all_well_kept w'.
Proof.
  intros Ha Hd HΦ Hw sid' s'. rewrite Hd.
  destruct (decide (sid' = sid)) as [->|Hne].
  - intros Es'.
    destruct (acts_on_lookup_inv _ _ _ _ _ Ha Es') as (s & Es & Hs).
    eapply HΦ; [exact Hs|by apply Hw].
  - rewrite (acts_on_other _ _ _ _ _ Ha Hne). apply Hw.
Qed.

Lemma all_well_kept_process_chunk w sid seq c :
  all_well_kept w -> all_well_kept (process_chunk w sid seq c).
Proof.
  destruct (chunk_effect_process_chunk sid w seq c) as (Ha & Hd & _).
  apply (all_well_kept_acts sid extends); [done|done|].
  intros a b. apply well_kept_extends.
Qed.

Lemma all_well_kept_serve w r :
  all_well_kept w -> all_well_kept (main.serve w r).
Proof.
  intros Hw. destruct r as [sid|sid seq chunk|sid|sid|c|c]; simpl.
  - intros sid' s. unfold create_session, store. simpl.
    rewrite lookup_insert. case_decide as Heq.
    + subst sid'. intros [= <-]. unfold well_kept. simpl.
      split_and!; try done;
        try (apply elem_of_union_l; by apply elem_of_singleton).
    + intros Es. destruct (Hw sid' s Es) as (Hd & Hrest).
      split; [|done]. by apply elem_of_union_r.
  - unfold main.upload_chunk.
    destruct (_ >? _)%Z; [done|]. case_decide; [|done].
    unfold save_chunk. case_decide as Hdir; [|done]. simpl.
    apply all_well_kept_process_chunk.
    destruct (sessions w !! sid) as [s|] eqn:Es; [|done].
    intros sid' s'. unfold store. simpl. rewrite lookup_insert.
    case_decide as Heq; [|apply Hw]. subst sid'. intros [= <-].
    destruct (Hw sid s Es) as (Hd & Hid & Hexp & Hrec & Hc & Hst).
    unfold well_kept. simpl. split_and!; try done. lia.
  - destruct (finalize_session_env w sid) as [Hd _].
    apply (all_well_kept_acts sid (finalized w sid) w);
      [apply finalize_session_acts|done| |done].
    intros a b. apply well_kept_finalized.
  - intros sid' s. unfold cleanup_session. simpl.
    rewrite lookup_delete. case_decide as Heq; [done|].
    intros Es. destruct (Hw sid' s Es) as (Hd & Hrest).
    split; [|done]. apply elem_of_difference. split; [done|].
    intros Hin%elem_of_singleton. by apply Heq.
  - done.
  - unfold WebSocketManager.disconnect. by case_decide.
Qed.

Lemma reachable_all_well_kept w : main.reachable w -> all_well_kept w.
Proof.
  induction 1 as [dirs clk|w r Hr IH].
  - intros sid s. unfold main.startup. simpl. by rewrite lookup_empty.
  - by apply all_well_kept_serve.
Qed.


(** X10. In every reachable world the stored [word_count] of a session is
    the number of words of its stored transcript. *)
Theorem word_count_matches_transcript (w : World) (sid : string) (s : Session) :
  main.reachable w ->
  sessions w !! sid = Some s ->
  word_count s = py.count_words (transcript s).
Proof.
  intros Hr Es.
  by destruct (reachable_all_well_kept w Hr sid s Es) as (_ & _ & _ & _ & ? & _).
Qed.

(** X11. In every reachable world a session record carries the id it is
    stored under, its expected sequence number and its upload counter are
    not negative, and it has an end time exactly when its status is
    [ended]. *)
Theorem session_record_coherent (w : World) (sid : string) (s : Session) :
  main.reachable w ->
  sessions w !! sid = Some s ->
  id s = sid /\ 0 <= expected_seq s /\ 0 <= chunks_received s
  /\ (status s = ended <-> is_Some (ended_at s)).
Proof.
  intros Hr Es.
  by destruct (reachable_all_well_kept w Hr sid s Es)
    as (_ & ? & ? & ? & _ & ?).
Qed.


End kept_facts.

(* ===================================================================== *)
(** ** More on finalisation *)
(* ===================================================================== *)

Section finalize_more.
Context `{Collaborators}.
Import storage workers.

Lemma finalized_ended_at w sid s s' :
  finalized w sid s s' -> is_Some (ended_at s') /\ id s' = id s.
Proof.
  intros (t_sum & t_end & ->). unfold flushed.
  destruct (flush_text w sid); destruct (final_summary_due _); simpl;
    by split.
Qed.

(** X13. [finalize_session] on an existing session marks it ended with an
    end time and gives up its recogniser, but neither drains nor clears the
    buffer: [expected_seq] and the buffered chunks are as before.  No other
    session and no other recogniser is touched. *)
Theorem finalize_session_ends (w : World) (sid : string) (s : Session) :
  sessions w !! sid = Some s ->
  (exists s',
      sessions (finalize_session w sid) !! sid = Some s'
      /\ status s' = ended /\ is_Some (ended_at s')
      /\ expected_seq s' = expected_seq s
      /\ buffered_chunks s' = buffered_chunks s)
  /\ recognizers (finalize_session w sid) !! sid = None
  /\ forall sid', sid' <> sid ->
       sessions (finalize_session w sid) !! sid' = sessions w !! sid'
       /\ recognizers (finalize_session w sid) !! sid'
          = recognizers w !! sid'.
Proof.
  intros Es.
  destruct (finalize_session_env w sid) as [_ Hr].
  split; [|split].
  - destruct (acts_on_lookup _ _ _ _ _ (finalize_session_acts w sid) Es)
      as (s' & Es' & Hfin).
    destruct (finalized_ended_at _ _ _ _ Hfin) as [Hend _].
    apply finalized_fields in Hfin as (He & Hb & _ & _ & Hst).
    exists s'. by split_and!.
  - rewrite Hr. apply lookup_delete_eq.
  - intros sid' Hne. split.
    + by apply (acts_on_other _ _ _ _ _ (finalize_session_acts w sid)).
    + rewrite Hr. by apply lookup_delete_ne.
Qed.

(** X14. Finalising a session a second time finds no recogniser and so no
    flush text: the transcript, the summary, the status and the sequencing
    state are the same after the second call as after the first. *)
Theorem finalize_session_twice (w : World) (sid : string) (s : Session) :
  sessions w !! sid = Some s ->
  exists s1 s2,
    sessions (finalize_session w sid) !! sid = Some s1
    /\ sessions (finalize_session (finalize_session w sid) sid) !! sid = Some s2
    /\ transcript s2 = transcript s1
    /\ summary s2 = summary s1
    /\ status s2 = status s1
    /\ expected_seq s2 = expected_seq s1
    /\ buffered_chunks s2 = buffered_chunks s1.
Proof.
  intros Es.
  destruct (acts_on_lookup _ _ _ _ _ (finalize_session_acts w sid) Es)
    as (s1 & Es1 & Hfin1).
  destruct (acts_on_lookup _ _ _ _ _
              (finalize_session_acts (finalize_session w sid) sid) Es1)
    as (s2 & Es2 & Hfin2).
  apply finalized_fields in Hfin1 as (He1 & Hb1 & Ht1 & Hs1 & Hst1).
  apply finalized_fields in Hfin2 as (He2 & Hb2 & Ht2 & Hs2 & Hst2).
  assert (flushed (finalize_session w sid) sid s1 = s1) as Hfl.
  { unfold flushed, flush_text, transcriber.finalize_session.
    destruct (finalize_session_env w sid) as [_ ->].
    by rewrite lookup_delete_eq. }
  rewrite Hfl in Ht2, Hs2.
  exists s1, s2. split_and!; try done; try congruence.
  rewrite Hs2, Ht1. rewrite Hs1.
  by destruct (final_summary_due _).
Qed.

Lemma after_final_summary_connections w sid :
  active_connections (after_final_summary w sid)
  `sublist_of` active_connections w
  /\ forall c, c ∈ active_connections w -> (forall m, send_text c m = true) ->
               c ∈ active_connections (after_final_summary w sid).
Proof.
  destruct (after_flush_traces w sid) as (_ & _ & Ha).
  unfold after_final_summary. destruct (final_summary_due _).
  - unfold _broadcast_summary. rewrite broadcast_connections.
    destruct (update_summary_env
                (with_summarize_calls (after_flush w sid)
                   (summarize_calls (after_flush w sid)
                      ++ [get_transcript (after_flush w sid) sid]))
                sid (summary_of (get_transcript (after_flush w sid) sid)))
      as (_ & -> & _).
    simpl. rewrite Ha. split; [apply sublist_filter|].
    intros c Hin Hacc. apply list_elem_of_filter. split; [apply Hacc|done].
  - rewrite Ha. split; [done|]. by intros.
Qed.

(** X15. The [session_ended] message of [finalize_session] carries the
    transcript and the summary that are stored when the call is back, the
    same two texts the answer of [end_session] carries, and it reaches
    every registered client that accepts what is sent to it. *)
Theorem session_ended_message_matches_response (w : World) (sid : string) :
  let w' := finalize_session w sid in
  let m := session_ended sid (get_transcript w' sid) (get_summary w' sid) in
  snd (main.end_session w sid)
  = main.ended_response sid (get_transcript w' sid) (get_summary w' sid)
      (sessions w' !! sid)
  /\ (forall c t x,
        (c, session_ended sid t x)
          ∈ drop (length (delivered w)) (delivered w') ->
        t = get_transcript w' sid /\ x = get_summary w' sid)
  /\ (forall c, c ∈ active_connections w -> (forall m', send_text c m' = true) ->
        (c, m) ∈ drop (length (delivered w)) (delivered w')).
Proof.
  simpl. split; [done|].
  destruct (after_final_summary_traces w sid) as [_ Hd]. simpl in Hd.
  destruct (after_final_summary_connections w sid) as [_ Hconn].
  set (w3 := after_final_summary w sid) in *.
  set (w4 := mark_session_ended w3 sid).
  assert (delivered w4 = delivered w3 /\ active_connections w4 = active_connections w3)
    as [Hd4 Ha4].
  { unfold w4.
    destruct (mark_session_ended_env w3 sid) as (_ & Ha & Hd' & _).
    by rewrite Ha, Hd'. }
  assert (get_transcript (finalize_session w sid) sid = get_transcript w4 sid
          /\ get_summary (finalize_session w sid) sid = get_summary w4 sid)
    as [HT HX].
  { rewrite finalize_session_unfold. simpl. fold w3. fold w4.
    unfold get_transcript, get_summary. by rewrite broadcast_sessions. }
  assert (delivered (finalize_session w sid)
          = delivered w
            ++ (if final_summary_due (get_transcript (after_flush w sid) sid)
                then (fun c => (c, summary_msg sid
                                     (summary_of (get_transcript (after_flush w sid) sid))))
                       <$> filter (accepts (summary_msg sid
                                     (summary_of (get_transcript (after_flush w sid) sid))))
                                  (active_connections w)
                else [])
            ++ ((fun c => (c, session_ended sid (get_transcript w4 sid)
                                (get_summary w4 sid)))
                  <$> filter (accepts (session_ended sid (get_transcript w4 sid)
                                         (get_summary w4 sid)))
                             (active_connections w4))) as Hall.
  { rewrite finalize_session_unfold. simpl. fold w3. fold w4.
    rewrite broadcast_delivered, Hd4, Hd. by rewrite <- app_assoc. }
  rewrite Hall, drop_app_length, HT, HX. split.
  - intros c t x [Hin|Hin]%elem_of_app.
    + destruct (final_summary_due _); [|by apply not_elem_of_nil in Hin].
      apply list_elem_of_fmap in Hin as (c' & Heq & _). discriminate Heq.
    + apply list_elem_of_fmap in Hin as (c' & Heq & _).
      by injection Heq as _ -> ->.
  - intros c Hin Hacc. apply elem_of_app. right.
    apply list_elem_of_fmap. exists c. split; [done|].
    apply list_elem_of_filter. split; [apply Hacc|].
    rewrite Ha4. by apply Hconn.
Qed.

End finalize_more.

(* ===================================================================== *)
(** ** More on the registry of clients *)
(* ===================================================================== *)

Section registry_facts.
Context `{Collaborators}.
Import WebSocketManager.

Lemma filter_all (P : Conn -> Prop) `{!forall c, Decision (P c)} (l : list Conn) :
  Forall P l -> filter P l = l.
Proof.
  induction 1 as [|c l Hc Hl IH]; [done|].
  by rewrite filter_cons_True, IH.
Qed.

(** X16. Registering a connection that was not registered and removing it
    again gives back the world as it was; removing a connection that is not
    registered changes nothing. *)
Theorem connect_then_disconnect (w : World) (c : Conn) :
  c ∉ active_connections w ->
  disconnect (connect w c) c = w /\ disconnect w c = w.
Proof.
  intros Hout. split.
  - unfold disconnect, connect. simpl.
    rewrite decide_True by (apply elem_of_app; right; apply list_elem_of_here).
    rewrite (list_remove_app_notin c (active_connections w) []) by done.
    rewrite app_nil_r. by destruct w.
  - unfold disconnect. by rewrite decide_False.
Qed.

(** X17. A broadcast never registers a connection and never reorders the
    registry: what is registered afterwards is a sublist of what was, without
    repetitions if there were none, and it is the whole registry when
    every connection accepts the message. *)
Theorem broadcast_only_prunes (w : World) (m : Message) :
  active_connections (broadcast w m) `sublist_of` active_connections w
  /\ (NoDup (active_connections w) -> NoDup (active_connections (broadcast w m)))
  /\ (Forall (accepts m) (active_connections w) ->
      active_connections (broadcast w m) = active_connections w).
Proof.
  rewrite broadcast_connections. split; [apply sublist_filter|]. split.
  - apply NoDup_filter.
  - apply filter_all.
Qed.

(** X18. With a registry without repetitions, one broadcast hands at most
    one copy of the message to a connection, and two broadcasts in a row
    leave their messages in the trace in publish order: everything the
    first one delivered comes before everything the second one delivered. *)
Theorem broadcasts_in_publish_order (w : World) (m1 m2 : Message) :
  NoDup (active_connections w) ->
  let d1 := (fun c => (c, m1)) <$> filter (accepts m1) (active_connections w) in
  let d2 := (fun c => (c, m2))
              <$> filter (accepts m2) (filter (accepts m1) (active_connections w)) in
  delivered (broadcast (broadcast w m1) m2) = delivered w ++ d1 ++ d2
  /\ NoDup d1 /\ NoDup d2.
Proof.
  intros Hnd. simpl.
  rewrite !broadcast_delivered, broadcast_connections, <- app_assoc.
  split; [done|].
  assert (forall m : Message, Inj (=) (=) (fun c : Conn => (c, m))) as Hinj
    by (intros m a b [= ->]; done).
  split; apply NoDup_fmap_2; try apply Hinj; repeat apply NoDup_filter; done.
Qed.

End registry_facts.

(* ===================================================================== *)
(** ** The summary step and the transcript updates inside chunk processing *)
(* ===================================================================== *)

Section pipeline_more.
Context `{Collaborators}.
Import storage workers.

Lemma count_words_empty : py.count_words "" = 0.
Proof. reflexivity. Qed.

(** X19. When the summary policy says yes for a session whose word count is
    right, the summary step does reach the summariser, with the stored
    transcript: its own guard of 30 words never stops a summary the policy
    asked for. *)
Theorem policy_trigger_reaches_summarizer (w : World) (sid : string)
    (s : Session) :
  sessions w !! sid = Some s ->
  counted s ->
  fst (should_generate_summary w sid
         SUMMARY_WORD_THRESHOLD SUMMARY_TIME_INTERVAL) = true ->
  let w1 := snd (should_generate_summary w sid
                   SUMMARY_WORD_THRESHOLD SUMMARY_TIME_INTERVAL) in
  summarize_calls (_generate_and_broadcast_summary w1 sid)
  = summarize_calls w1 ++ [transcript s].
Proof.
  intros Es Hc Htrig. simpl.
  assert (50 < word_count s) as Hwc.
  { unfold should_generate_summary, SUMMARY_WORD_THRESHOLD in Htrig.
    rewrite Es in Htrig.
    destruct (word_count s >=? 200)%Z eqn:E200; [lia|]. simpl in Htrig.
    destruct (Qle_bool _ _); destruct (word_count s >? 50)%Z eqn:E50;
      simpl in Htrig; try discriminate Htrig. lia. }
  set (w1 := snd (should_generate_summary w sid
                    SUMMARY_WORD_THRESHOLD SUMMARY_TIME_INTERVAL)).
  assert (sessions w1 = sessions w) as Hs1
    by apply should_generate_summary_sessions.
  unfold _generate_and_broadcast_summary.
  assert (get_transcript w1 sid = transcript s) as ->
    by (unfold get_transcript; by rewrite Hs1, Es).
  rewrite Hc in Hwc.
  assert (py.truthy (transcript s) = true) as ->.
  { destruct (transcript s); [|done]. rewrite count_words_empty in Hwc. lia. }
  assert ((py.count_words (transcript s) <? 30)%Z = false) as -> by lia.
  simpl. rewrite summarize_spec.
  destruct (py.truthy _); [|done].
  unfold _broadcast_summary. rewrite broadcast_summarize_calls.
  by destruct (update_summary_env
                 (with_summarize_calls w1 (summarize_calls w1 ++ [transcript s]))
                 sid (summary_of (transcript s)))
    as (_ & _ & _ & -> & _).
Qed.

Lemma updates_carry_delta_nil : updates_carry_delta [].
Proof. intros c sid t full Hin. by apply not_elem_of_nil in Hin. Qed.

Lemma updates_carry_delta_app l1 l2 :
  updates_carry_delta l1 -> updates_carry_delta l2 ->
  updates_carry_delta (l1 ++ l2).
Proof.
  intros H1 H2 c sid t full [Hin|Hin]%elem_of_app; [by eapply H1|by eapply H2].
Qed.

Lemma updates_kept_refl sid w : updates_kept sid w w.
Proof.
  intros Hs. split; [done|]. exists []. split; [by rewrite app_nil_r|].
  apply updates_carry_delta_nil.
Qed.

Lemma updates_kept_trans sid a b c :
  updates_kept sid a b -> updates_kept sid b c -> updates_kept sid a c.
Proof.
  intros Hab Hbc Ha. destruct (Hab Ha) as (Hb & n1 & Hd1 & Hn1).
  destruct (Hbc Hb) as (Hc & n2 & Hd2 & Hn2).
  split; [done|]. exists (n1 ++ n2). split; [by rewrite Hd2, Hd1, app_assoc|].
  by apply updates_carry_delta_app.
Qed.

Lemma updates_kept_quiet sid (Φ : Session -> Session -> Prop) w w' :
  acts_on sid Φ w w' -> delivered w' = delivered w -> updates_kept sid w w'.
Proof.
  intros Ha Hd [s Es].
  destruct (acts_on_lookup _ _ _ _ _ Ha Es) as (s' & Es' & _).
  split; [by exists s'|]. exists []. split; [by rewrite app_nil_r|].
  apply updates_carry_delta_nil.
Qed.

(** What the summary step sends is summary messages only. *)
Lemma _generate_and_broadcast_summary_sends w sid :
  exists new,
    delivered (_generate_and_broadcast_summary w sid) = delivered w ++ new
    /\ forall c m, (c, m) ∈ new -> exists x, m = summary_msg sid x.
Proof.
  unfold _generate_and_broadcast_summary.
  destruct (_ || _).
  { exists []. split; [by rewrite app_nil_r|].
    intros c m Hin. by apply not_elem_of_nil in Hin. }
  rewrite summarize_spec.
  destruct (py.truthy _).
  - unfold _broadcast_summary. rewrite broadcast_delivered.
    destruct (update_summary_env
                (with_summarize_calls w
                   (summarize_calls w ++ [get_transcript w sid]))
                sid (summary_of (get_transcript w sid)))
      as (_ & -> & -> & _).
    simpl. eexists. split; [done|].
    intros c m (c' & Heq & _)%list_elem_of_fmap. injection Heq as _ ->.
    by eexists.
  - exists []. split; [by rewrite app_nil_r|].
    intros c m Hin. by apply not_elem_of_nil in Hin.
Qed.

Lemma updates_kept_transcribe_and_advance sid w wav :
  updates_kept sid w (transcribe_and_advance w sid wav).
Proof.
  intros [s Es].
  destruct (acts_on_lookup _ _ _ _ _ (transcribe_and_advance_acts w sid wav) Es)
    as (s' & Es' & _).
  split; [by exists s'|].
  unfold transcribe_and_advance. rewrite transcribe_chunk_spec.
  set (text := snd (recognized w sid wav)).
  set (w0 := with_recognizers w _).
  assert (forall v, delivered (increment_expected_seq v sid) = delivered v)
    as Hinc.
  { intros v. by destruct (increment_expected_seq_env v sid) as (_ & _ & -> & _). }
  rewrite Hinc.
  destruct (py.truthy text).
  2:{ exists []. split; [by rewrite app_nil_r|apply updates_carry_delta_nil]. }
  destruct (should_generate_summary _ _ _ _) as [trigger w3] eqn:E3.
  pose proof (should_generate_summary_delivered
                (_broadcast_transcript_update
                   (update_transcript w0 sid text true) sid text)
                sid SUMMARY_WORD_THRESHOLD SUMMARY_TIME_INTERVAL) as Hd3.
  rewrite E3 in Hd3. simpl in Hd3.
  unfold _broadcast_transcript_update in Hd3.
  rewrite broadcast_delivered in Hd3.
  destruct (update_transcript_env w0 sid text true) as (_ & Hau & Hdu & _).
  rewrite Hdu, Hau in Hd3. simpl in Hd3.
  assert (get_transcript (update_transcript w0 sid text true) sid
          = (transcript s ++ " " ++ text)%string) as Hfull.
  { unfold get_transcript.
    by rewrite (update_transcript_lookup w0 sid s text Es). }
  rewrite Hfull in Hd3.
  set (n1 := (fun c => (c, transcript_update sid text
                             (transcript s ++ " " ++ text)%string))
               <$> filter (accepts (transcript_update sid text
                                      (transcript s ++ " " ++ text)%string))
                          (active_connections w)) in Hd3.
  assert (updates_carry_delta n1) as Hn1.
  { intros c sid' t full (c' & Heq & _)%list_elem_of_fmap.
    injection Heq as _ _ -> ->. by eexists. }
  destruct trigger.
  - destruct (_generate_and_broadcast_summary_sends w3 sid) as (n2 & Hd2 & Hn2).
    exists (n1 ++ n2). split; [by rewrite Hd2, Hd3, app_assoc|].
    apply updates_carry_delta_app; [done|].
    intros c sid' t full Hin. destruct (Hn2 _ _ Hin) as [x Hx]. discriminate Hx.
  - by exists n1.
Qed.

(** X20. Every transcript update that [process_chunk] sends for an existing
    session carries a full transcript that ends with a blank and the text
    of the update: what a client is told is new is the end of what it is
    told is the whole. *)
Theorem transcript_updates_carry_delta (w : World) (sid : string) (seq : Z)
    (c : Chunk) (s : Session) :
  sessions w !! sid = Some s ->
  exists new,
    delivered (process_chunk w sid seq c) = delivered w ++ new
    /\ forall k sid' text full,
         (k, transcript_update sid' text full) ∈ new ->
         exists before, full = (before ++ " " ++ text)%string.
Proof.
  intros Es.
  assert (updates_kept sid w (process_chunk w sid seq c)) as Hk.
  { apply (process_chunk_rel sid (updates_kept sid)).
    - apply updates_kept_refl.
    - apply updates_kept_trans.
    - intros v k x. eapply updates_kept_quiet; [apply buffer_future_chunk_acts|].
      by destruct (buffer_future_chunk_env v sid k x) as (_ & _ & -> & _).
    - intros v k. eapply updates_kept_quiet; [apply remove_buffered_chunk_acts|].
      by destruct (remove_buffered_chunk_env v sid k) as (_ & _ & -> & _).
    - intros v wav. apply updates_kept_transcribe_and_advance. }
  destruct Hk as (_ & new & Hd & Hn); [by exists s|].
  by exists new.
Qed.

End pipeline_more.

(* ===================================================================== *)
(** ** Chunk files do not collide *)
(* ===================================================================== *)

Section file_name_facts.
Import file_names.

Lemma uint_of_string_zeros k s :
  DecimalString.NilEmpty.uint_of_string (zeros k ++ s)
  = Nat.iter k Decimal.D0 <$> DecimalString.NilEmpty.uint_of_string s.
Proof.
  induction k as [|k IH].
  - change (zeros 0 ++ s)%string with s.
    by destruct (DecimalString.NilEmpty.uint_of_string s).
  - change (zeros (S k)) with (String "0" (zeros k)).
    rewrite string_app_cons.
    change (DecimalString.NilEmpty.uint_of_string (String "0" (zeros k ++ s)))
      with (DecimalString.uint_of_char "0"
              (DecimalString.NilEmpty.uint_of_string (zeros k ++ s))).
    rewrite IH.
    by destruct (DecimalString.NilEmpty.uint_of_string s).
Qed.

Lemma N_of_uint_zeros k d : N.of_uint (Nat.iter k Decimal.D0 d) = N.of_uint d.
Proof. induction k as [|k IH]; [done|]. simpl. exact IH. Qed.

Lemma read_zeros_digits k n :
  DecimalString.NilEmpty.uint_of_string (zeros k ++ digits n)
  = Some (Nat.iter k Decimal.D0 (N.to_uint n)).
Proof.
  rewrite uint_of_string_zeros. unfold digits. by rewrite DecimalString.NilEmpty.usu.
Qed.

Lemma digits_first n :
  exists a r, digits n = String a r /\ a <> "-"%char.
Proof.
  unfold digits. pose proof (DecimalN.Unsigned.of_to n) as Hn.
  destruct (N.to_uint n) eqn:E; simpl;
    try (eexists _, _; split; [reflexivity|discriminate]).
  simpl in Hn. subst n. discriminate E.
Qed.

Lemma read_05d_unsigned a r :
  a <> "-"%char ->
  read_05d (String a r)
  = (fun d => Z.of_N (N.of_uint d)) <$> DecimalString.NilEmpty.uint_of_string (String a r).
Proof.
  intros Ha. destruct a as [[] [] [] [] [] [] [] []]; try reflexivity.
  by destruct Ha.
Qed.

(** What [format_05d] prints reads back as the number. *)
Lemma read_format_05d z : read_05d (format_05d z) = Some z.
Proof.
  unfold format_05d. destruct (z <? 0)%Z eqn:Ez.
  - simpl. rewrite read_zeros_digits. simpl.
    rewrite N_of_uint_zeros, DecimalN.Unsigned.of_to.
    f_equal. rewrite Z2N.id; lia.
  - assert (read_05d (zeros (5 - String.length (digits (Z.to_N z)))
                       ++ digits (Z.to_N z))
            = (fun d => Z.of_N (N.of_uint d))
                <$> DecimalString.NilEmpty.uint_of_string
                      (zeros (5 - String.length (digits (Z.to_N z)))
                       ++ digits (Z.to_N z))) as ->.
    { destruct (5 - String.length (digits (Z.to_N z)))%nat as [|k].
      - destruct (digits_first (Z.to_N z)) as (a & r & -> & Ha).
        by apply read_05d_unsigned.
      - change (zeros (S k)) with (String "0" (zeros k)).
        rewrite string_app_cons. by apply read_05d_unsigned. }
    rewrite read_zeros_digits. simpl.
    rewrite N_of_uint_zeros, DecimalN.Unsigned.of_to.
    f_equal. rewrite Z2N.id; lia.
Qed.

Lemma dotless_app s t : dotless (s ++ t) = dotless s && dotless t.
Proof.
  induction s as [|a s IH]; [done|].
  rewrite string_app_cons. simpl. rewrite IH. by rewrite andb_assoc.
Qed.

Lemma dotless_zeros k : dotless (zeros k) = true.
Proof. induction k as [|k IH]; [done|]. simpl. exact IH. Qed.

Lemma dotless_digits n : dotless (digits n) = true.
Proof.
  unfold digits. induction (N.to_uint n) as [|d IH|d IH|d IH|d IH|d IH|d IH|d IH|d IH|d IH|d IH];
    simpl; auto.
Qed.

Lemma dotless_format_05d z : dotless (format_05d z) = true.
Proof.
  unfold format_05d. destruct (z <? 0)%Z; simpl;
    by rewrite dotless_app, dotless_zeros, dotless_digits.
Qed.

Lemma cut_at_dot s1 : forall s2 e1 e2,
  dotless s1 = true -> dotless s2 = true ->
  (s1 ++ String "." e1)%string = (s2 ++ String "." e2)%string ->
  s1 = s2 /\ e1 = e2.
Proof.
  induction s1 as [|a s1 IH]; intros [|b s2] e1 e2 H1 H2 Heq;
    rewrite ?string_app_cons in Heq; simpl in *.
  - by injection Heq as ->.
  - injection Heq as <- _. simpl in H2. discriminate H2.
  - injection Heq as -> _. simpl in H1. discriminate H1.
  - injection Heq as -> Heq.
    apply andb_prop in H1 as [_ H1]. apply andb_prop in H2 as [_ H2].
    destruct (IH _ _ _ H1 H2 Heq) as [-> ->]. done.
Qed.

Lemma supported_format_starts_with_dot ext :
  ext ∈ SUPPORTED_FORMATS -> exists r, ext = String "." r.
Proof.
  unfold SUPPORTED_FORMATS. intros Hin.
  repeat (apply elem_of_cons in Hin as [->|Hin]; [by eexists|]).
  by apply not_elem_of_nil in Hin.
Qed.

Lemma chunk_prefix_inj s t :
  ("chunk_" ++ s)%string = ("chunk_" ++ t)%string -> s = t.
Proof. intros Heq. by injection Heq. Qed.

(** X21. Two chunk files of a session have the same name only if they have
    the same sequence number and the same suffix, for every integer
    sequence number, negative or longer than five digits included, and every
    supported suffix; two converted files have the same name only if they
    have the same sequence number. *)
Theorem chunk_file_names_distinct (seq seq' : Z) (ext ext' : string) :
  ext ∈ SUPPORTED_FORMATS -> ext' ∈ SUPPORTED_FORMATS ->
  (chunk_file_name seq ext = chunk_file_name seq' ext' ->
   seq = seq' /\ ext = ext')
  /\ (converted_file_name seq = converted_file_name seq' -> seq = seq').
Proof.
  intros Hext Hext'.
  assert (forall e e', format_05d seq ++ String "." e
                       = format_05d seq' ++ String "." e' ->
                       seq = seq' /\ e = e')%string as Hcut.
  { intros e e' Heq.
    destruct (cut_at_dot _ _ _ _ (dotless_format_05d seq)
                (dotless_format_05d seq') Heq) as [Hf ->].
    split; [|done].
    pose proof (read_format_05d seq) as Hr. rewrite Hf, read_format_05d in Hr.
    by injection Hr. }
  split.
  - destruct (supported_format_starts_with_dot _ Hext) as [r ->].
    destruct (supported_format_starts_with_dot _ Hext') as [r' ->].
    unfold chunk_file_name. intros Heq%chunk_prefix_inj.
    destruct (Hcut _ _ Heq) as [-> ->]. done.
  - unfold converted_file_name. intros Heq%chunk_prefix_inj.
    by destruct (Hcut _ _ Heq) as [-> _].
Qed.

End file_name_facts.

(* ===================================================================== *)
(** ** The life of a session: created, ended, deleted *)
(* ===================================================================== *)

Section lifecycle_facts.
Context `{Collaborators}.
Import storage workers.


(** X23. After [cleanup_session] the id is unknown and its directory is
    gone: the transcript and the summary read as empty, an upload whose size
    and suffix pass the checks is answered 500, and the recognisers are as
    before, the one of the deleted session included. *)
Theorem deleted_session_is_gone (w : World) (sid : string) (seq : Z)
    (chunk : main.UploadFile) :
  Z.of_nat (length (main.upload_data chunk)) <= MAX_CHUNK_SIZE ->
  main.upload_suffix chunk ∈ SUPPORTED_FORMATS ->
  let w' := cleanup_session w sid in
  sessions w' !! sid = None
  /\ get_transcript w' sid = "" /\ get_summary w' sid = ""
  /\ get_expected_seq w' sid = 0
  /\ recognizers w' = recognizers w
  /\ snd (main.upload_chunk w' sid seq chunk) = main.HTTPException 500.
Proof.
  intros Hsize Hsuffix. simpl.
  assert (sessions (cleanup_session w sid) !! sid = None) as Hnone
    by apply lookup_delete_eq.
  unfold get_transcript, get_summary, get_expected_seq. rewrite Hnone.
  split_and!; try done.
  unfold main.upload_chunk.
  assert ((Z.of_nat (length (main.upload_data chunk)) >? MAX_CHUNK_SIZE)%Z
          = false) as -> by lia.
  rewrite decide_True by done.
  unfold save_chunk. rewrite decide_False; [done|].
  unfold cleanup_session. simpl. intros [_ Hin]%elem_of_difference.
  apply Hin. by apply elem_of_singleton.
Qed.

(** X24. [process_chunk] does not look at the status: when the chunk an
    ended session expects arrives and is converted, the recognised text is
    appended to the transcript all the same, and the session stays ended. *)
Theorem ended_session_still_transcribes (w : World) (sid : string)
    (s : Session) (c : Chunk) (wav : Wav) :
  sessions w !! sid = Some s ->
  status s = ended ->
  ffmpeg sid (expected_seq s) c = Some wav ->
  snd (recognized w sid wav) <> "" ->
  exists s' rest,
    sessions (process_chunk w sid (expected_seq s) c) !! sid = Some s'
    /\ status s' = ended
    /\ transcript s'
       = (transcript s ++ " " ++ snd (recognized w sid wav) ++ rest)%string.
Proof.
  intros Es Hst Hc Htext.
  destruct (acts_on_lookup _ _ _ _ _ (transcribe_and_advance_acts w sid wav) Es)
    as (s1 & Es1 & Hs1).
  pose proof (extends_pipeline_step _ _ _ Hs1) as (_ & _ & Hst1 & _).
  apply pipeline_step_fields in Hs1 as (_ & _ & Ht1 & _).
  rewrite (proj2 (truthy_true _) Htext) in Ht1.
  rewrite <- (get_expected_seq_lookup w sid s Es) in Hc |- *.
  pose proof (process_chunk_expected_drains w sid c wav Hc) as Hd.
  apply chunk_effect_drain in Hd.
  destruct (chunk_effect_lookup _ _ _ _ _ Hd Es1)
    as (s' & Es' & _ & _ & Hst' & _ & _ & _ & (rest & Ht') & _).
  exists s', rest. split_and!; [done|congruence|].
  by rewrite Ht', Ht1, !string_app_assoc.
Qed.

End lifecycle_facts.

(* ===================================================================== *)
(** ** The further theorems at concrete inputs *)
(* ===================================================================== *)

Section more_concrete.
Import demo more_demo storage workers.
#[local] Existing Instance demo.env.

Lemma update_transcript_adds_words_witness :
  exists s',
    sessions (update_transcript (world (session " hello" "" 1 0) None 2)
                "S1" "good morning" true) !! "S1" = Some s'
    /\ transcript s' = " hello good morning"
    /\ word_count s' = 1 + 2.
Proof.
  destruct (update_transcript_adds_words (world (session " hello" "" 1 0) None 2)
              "S1" "good morning" (session " hello" "" 1 0) eq_refl eq_refl)
    as (s' & Es' & Ht & Hw & _).
  exists s'. split; [exact Es'|]. split; [exact Ht|exact Hw].
Defined.

Lemma transcript_append_only_witness :
  exists s' suffix,
    sessions (process_chunk (world (session " hello" "" 0 0) None 2) "S1" 0 c0)
      !! "S1" = Some s'
    /\ transcript s' = (" hello" ++ suffix)%string
    /\ word_count s' = py.count_words (transcript s')
    /\ 1 <= word_count s'.
Proof.
  destruct (transcript_append_only (world (session " hello" "" 0 0) None 2)
              "S1" 0 c0 "S1" (session " hello" "" 0 0) eq_refl)
    as (s' & suffix & Es' & Ht & _ & _ & _ & Hc).
  destruct (Hc eq_refl) as [Hc' Hle].
  exists s', suffix. split; [exact Es'|]. split; [exact Ht|].
  split; [exact Hc'|exact Hle].
Defined.

Lemma word_threshold_stays_crossed_witness :
  fst (should_generate_summary (process_chunk talkative "S1" 3 c0) "S1"
         SUMMARY_WORD_THRESHOLD SUMMARY_TIME_INTERVAL) = true.
Proof.
  apply (word_threshold_stays_crossed talkative "S1" 3 c0
           (session (babble 200) "" 7 0) eq_refl eq_refl).
  vm_compute. discriminate.
Defined.

Lemma admitted_chunk_is_consumed_witness :
  0 < get_expected_seq (process_chunk fresh "S1" 0 c0) "S1"
  /\ process_chunk (process_chunk fresh "S1" 0 c0) "S1" 0 c1
     = process_chunk fresh "S1" 0 c0.
Proof.
  destruct (admitted_chunk_is_consumed fresh "S1" (session "" "" 0 0) c0 c0
              eq_refl eq_refl) as [Hadv Hdup].
  split; [exact Hadv|]. apply (Hdup 0 c1). simpl. lia.
Defined.

Lemma unconvertible_buffered_chunk_is_dropped_witness :
  get_expected_seq (process_chunk waiting "S1" 0 c0) "S1" = 1
  /\ get_buffered_chunk (process_chunk waiting "S1" 0 c0) "S1" 1 = None.
Proof.
  destruct (unconvertible_buffered_chunk_is_dropped waiting "S1" waiting_session
              c0 (audio "S1" 1 "") c0 eq_refl eq_refl eq_refl eq_refl)
    as (_ & He & Hb).
  split; [exact He|exact Hb].
Defined.


Lemma visited_reachable : main.reachable visited.
Proof. apply main.reach_serve, main.reach_serve, main.reach_startup. Defined.

Lemma visited_lookup : sessions visited !! "S1" = Some visited_session.
Proof. vm_compute. reflexivity. Defined.


Lemma word_count_matches_transcript_witness :
  word_count visited_session = py.count_words (transcript visited_session).
Proof.
  exact (word_count_matches_transcript visited "S1" visited_session
           visited_reachable visited_lookup).
Defined.

Lemma session_record_coherent_witness :
  id visited_session = "S1" /\ 0 <= expected_seq visited_session
  /\ 0 <= chunks_received visited_session
  /\ (status visited_session = ended <-> is_Some (ended_at visited_session)).
Proof.
  exact (session_record_coherent visited "S1" visited_session
           visited_reachable visited_lookup).
Defined.


Lemma finalize_session_ends_witness :
  (exists s',
      sessions (finalize_session waiting "S1") !! "S1" = Some s'
      /\ status s' = ended
      /\ buffered_chunks s' = buffered_chunks waiting_session)
  /\ recognizers (finalize_session waiting "S1") !! "S1" = None.
Proof.
  destruct (finalize_session_ends waiting "S1" waiting_session eq_refl)
    as ((s' & Es' & Hst & _ & _ & Hb) & Hr & _).
  split; [|exact Hr]. exists s'. split; [exact Es'|]. split; [exact Hst|exact Hb].
Defined.

Lemma finalize_session_twice_witness :
  exists s1 s2,
    sessions (finalize_session closing "S1") !! "S1" = Some s1
    /\ sessions (finalize_session (finalize_session closing "S1") "S1") !! "S1"
       = Some s2
    /\ transcript s2 = transcript s1
    /\ summary s2 = summary s1.
Proof.
  destruct (finalize_session_twice closing "S1"
              (session initials "Greeting." 3 0) eq_refl)
    as (s1 & s2 & E1 & E2 & Ht & Hs & _).
  exists s1, s2. split; [exact E1|]. split; [exact E2|].
  split; [exact Ht|exact Hs].
Defined.

Lemma connect_then_disconnect_witness :
  WebSocketManager.disconnect (WebSocketManager.connect fresh 7%nat) 7%nat
  = fresh.
Proof.
  apply (connect_then_disconnect fresh 7%nat).
  simpl. intros Hin.
  repeat (apply elem_of_cons in Hin as [Hin|Hin]; [discriminate Hin|]).
  by apply not_elem_of_nil in Hin.
Defined.

Lemma broadcasts_in_publish_order_witness :
  delivered (WebSocketManager.broadcast
               (WebSocketManager.broadcast fresh (summary_msg "S1" "One."))
               (summary_msg "S1" "Two."))
  = delivered fresh
    ++ ((fun c => (c, summary_msg "S1" "One."))
          <$> filter (accepts (summary_msg "S1" "One.")) (active_connections fresh))
    ++ ((fun c => (c, summary_msg "S1" "Two."))
          <$> filter (accepts (summary_msg "S1" "Two."))
                (filter (accepts (summary_msg "S1" "One."))
                   (active_connections fresh))).
Proof.
  apply (broadcasts_in_publish_order fresh (summary_msg "S1" "One.")
           (summary_msg "S1" "Two.")).
  simpl. apply (bool_decide_unpack _). vm_compute. exact I.
Defined.

Lemma policy_trigger_reaches_summarizer_witness :
  summarize_calls
    (_generate_and_broadcast_summary
       (snd (should_generate_summary talkative "S1"
               SUMMARY_WORD_THRESHOLD SUMMARY_TIME_INTERVAL)) "S1")
  = summarize_calls
      (snd (should_generate_summary talkative "S1"
              SUMMARY_WORD_THRESHOLD SUMMARY_TIME_INTERVAL))
    ++ [transcript (session (babble 200) "" 7 0)].
Proof.
  apply (policy_trigger_reaches_summarizer talkative "S1"
           (session (babble 200) "" 7 0) eq_refl eq_refl).
  vm_compute. reflexivity.
Defined.

Lemma transcript_updates_carry_delta_witness :
  exists new,
    delivered (process_chunk fresh "S1" 0 c0) = delivered fresh ++ new
    /\ forall k sid' text full,
         (k, transcript_update sid' text full) ∈ new ->
         exists before, full = (before ++ " " ++ text)%string.
Proof.
  exact (transcript_updates_carry_delta fresh "S1" 0 c0 (session "" "" 0 0)
           eq_refl).
Defined.

Lemma chunk_file_names_distinct_witness :
  file_names.chunk_file_name 12 ".webm" <> file_names.chunk_file_name 120 ".webm".
Proof.
  intros Heq.
  destruct (proj1 (chunk_file_names_distinct 12 120 ".webm" ".webm"
                     (list_elem_of_here _ _) (list_elem_of_here _ _)) Heq)
    as [H12 _].
  discriminate H12.
Defined.


Lemma deleted_session_is_gone_witness :
  snd (main.upload_chunk (cleanup_session fresh "S1") "S1" 0 (upload "hello"))
  = main.HTTPException 500.
Proof.
  refine (proj2 (proj2 (proj2 (proj2 (proj2
            (deleted_session_is_gone fresh "S1" 0 (upload "hello") _ _)))))).
  - vm_compute. discriminate.
  - apply list_elem_of_here.
Defined.

Lemma ended_session_still_transcribes_witness :
  exists s' rest,
    sessions (process_chunk (world (set_status (session " bye" "" 4 0) ended) None 2)
                "S1" 4 c0) !! "S1" = Some s'
    /\ status s' = ended
    /\ transcript s' = (" bye" ++ " " ++ "good morning everyone" ++ rest)%string.
Proof.
  apply (ended_session_still_transcribes
           (world (set_status (session " bye" "" 4 0) ended) None 2) "S1"
           (set_status (session " bye" "" 4 0) ended) c0 c0
           eq_refl eq_refl eq_refl).
  vm_compute. discriminate.
Defined.

(** What [format_05d] prints. *)
Example format_05d_examples :
  file_names.format_05d 7 = "00007"
  /\ file_names.format_05d 0 = "00000"
  /\ file_names.format_05d 123456 = "123456"
  /\ file_names.format_05d (-5) = "-0005"
  /\ file_names.chunk_file_name 42 ".webm" = "chunk_00042.webm"
  /\ file_names.converted_file_name 42 = "chunk_00042.wav".
Proof. vm_compute. repeat split; reflexivity. Qed.

End more_concrete.
